(** * Web-log analysis (assignment3.py): a shallow embedding and its properties

    The program reads a comma separated access log held in one string,
    turns every row into a dictionary keyed by five column names, counts
    the rows whose [path] names an image, derives the percentage of image
    requests and reports the browser seen most often.

    Modelling conventions.
    - A Python [str] is a [string] of Unicode code points.  Line feed,
      carriage return and the double quote are the constants [LF], [CR]
      and [DQUOTE].
    - A Python [int] is a [Z]; a Python [float] is a binary64 [float].
    - A [dict] is an association list in insertion order, because the
      final [max] walks the tally in that order.
    - A raised exception is the [Raise] outcome of the [result] type; the
      exception leaves every enclosing loop, so the partial state of the
      loop is lost.
    - [csv.reader], [re.search], [max] and [int / int] are the parts of
      the Python runtime the program calls; they are modelled after
      CPython, specialised to the arguments the program passes. *)

From Stdlib Require Import List ZArith NArith Bool Lia Floats.
From Stdlib Require Strings.Byte.
Import ListNotations.

(* ================================================================== *)
(** ** Characters and strings

    A character is a Unicode code point and a string is a sequence of
    characters, as a Python [str] is.  A string literal stands for the
    sequence of its ASCII characters. *)

Definition char : Type := N.

Bind Scope N_scope with char.

Module Char.

Definition eqb (a b : char) : bool := N.eqb a b.

End Char.

Arguments Char.eqb : simpl nomatch.

Inductive string : Type :=
| EmptyString : string
| String : char -> string -> string.

Declare Scope str_scope.
Delimit Scope str_scope with str.
Bind Scope str_scope with string.

Definition string_of_bytes (bytes : list Byte.byte) : option string :=
  fold_right
    (fun b acc =>
       match acc with
       | Some s => if (Byte.to_N b <? 128)%N then Some (String (Byte.to_N b) s) else None
       | None => None
       end)
    (Some EmptyString) bytes.

Fixpoint bytes_of_string (s : string) : option (list Byte.byte) :=
  match s with
  | EmptyString => Some []
  | String c s' =>
      match Byte.of_N c, bytes_of_string s' with
      | Some b, Some bs => if (c <? 128)%N then Some (b :: bs) else None
      | _, _ => None
      end
  end.

String Notation string string_of_bytes bytes_of_string : str_scope.

Module Str.

(** [len(s)] *)
Fixpoint length (s : string) : nat :=
  match s with
  | EmptyString => 0
  | String _ s' => S (length s')
  end.

(** [a + b] *)
Fixpoint append (a b : string) : string :=
  match a with
  | EmptyString => b
  | String c a' => String c (append a' b)
  end.

(** [a == b] *)
Fixpoint eqb (a b : string) : bool :=
  match a, b with
  | EmptyString, EmptyString => true
  | String x a', String y b' => Char.eqb x y && eqb a' b'
  | _, _ => false
  end.

End Str.

Infix "++" := Str.append : str_scope.

(** [ord(s)] for a literal of one character. *)
Definition ord (s : string) : char :=
  match s with
  | String c _ => c
  | EmptyString => 0%N
  end.

Local Open Scope str_scope.
Local Open Scope list_scope.

(* ================================================================== *)
(** ** Outcomes of a call: a value or a raised exception *)

Inductive exn : Type :=
| KeyError (key : string)
| CsvError (msg : string)
| ValueError (msg : string)
| ZeroDivisionError
| OverflowError.

Inductive result (A : Type) : Type :=
| Ok (a : A)
| Raise (e : exn).

Arguments Ok {A} a.
Arguments Raise {A} e.

Definition bind {A B : Type} (m : result A) (k : A -> result B) : result B :=
  match m with
  | Ok a => k a
  | Raise e => Raise e
  end.

Notation "x <- m ;; k" := (bind m (fun x => k))
  (at level 61, m at next level, right associativity).

(* ================================================================== *)
(** ** Named characters and string helpers *)

Definition LF : char := 10%N.
Definition CR : char := 13%N.
Definition DQUOTE : char := 34%N.
Definition COMMA : char := ord ",".

(** [s + c] for a single character [c]. *)
Definition snoc (s : string) (c : char) : string := s ++ String c "".

(** Membership of a character in a string. *)
Fixpoint occurs (c : char) (s : string) : bool :=
  match s with
  | "" => false
  | String a s' => Char.eqb a c || occurs c s'
  end.

(** [s.startswith(p)]. *)
Fixpoint startswith (p s : string) : bool :=
  match p, s with
  | "", _ => true
  | String a p', String b s' => Char.eqb a b && startswith p' s'
  | String _ _, "" => false
  end.

(** [s[:n]]. *)
Fixpoint take (n : nat) (s : string) : string :=
  match n, s with
  | S n', String a s' => String a (take n' s')
  | _, _ => ""
  end.

(* ================================================================== *)
(** ** Dictionaries in insertion order *)

Module Dict.

Definition t (V : Type) : Type := list (string * V).

(** [d.get(k)]: the value stored under [k], if any. *)
Fixpoint get {V : Type} (k : string) (d : t V) : option V :=
  match d with
  | [] => None
  | (k', v) :: d' => if Str.eqb k' k then Some v else get k d'
  end.

(** [d[k] = v]: an existing key keeps its place, a new key goes last. *)
Fixpoint set {V : Type} (k : string) (v : V) (d : t V) : t V :=
  match d with
  | [] => [(k, v)]
  | (k', v') :: d' =>
      if Str.eqb k' k then (k', v) :: d' else (k', v') :: set k v d'
  end.

(** [d[k]] in an expression: [KeyError] when [k] is missing. *)
Definition getitem {V : Type} (d : t V) (k : string) : result V :=
  match get k d with
  | Some v => Ok v
  | None => Raise (KeyError k)
  end.

(** [dict(pairs)]: the pairs are inserted from left to right. *)
Definition of_pairs {V : Type} (pairs : list (string * V)) : t V :=
  fold_left (fun d kv => set (fst kv) (snd kv) d) pairs [].

Definition keys {V : Type} (d : t V) : list string := map fst d.

End Dict.

(* ================================================================== *)
(** ** [io.StringIO]: iteration over the lines of a string

    [io.StringIO(text)] uses [newline='\n']: a line ends after each line
    feed, which stays part of the line; a carriage return is an ordinary
    character; text after the last line feed is a last, unterminated
    line. *)

Fixpoint StringIO_lines (text : string) : list string :=
  match text with
  | "" => []
  | String c rest =>
      if Char.eqb c LF then String c "" :: StringIO_lines rest
      else match StringIO_lines rest with
           | [] => [String c ""]
           | l :: ls => String c l :: ls
           end
  end.

(* ================================================================== *)
(** ** [csv.reader(file, delimiter=',')]

    The reader of CPython's [_csv] module under the default (excel)
    dialect: delimiter comma, quote character [DQUOTE], [doublequote] on, no
    escape character, [skipinitialspace] off, [strict] off, minimal
    quoting.  The two escape states cannot be entered without an escape
    character and are left out. *)

Module Csv.

Inductive ParserState : Type :=
| START_RECORD
| START_FIELD
| IN_FIELD
| IN_QUOTED_FIELD
| QUOTE_IN_QUOTED_FIELD
| EAT_CRNL.

Definition state_eqb (a b : ParserState) : bool :=
  match a, b with
  | START_RECORD, START_RECORD
  | START_FIELD, START_FIELD
  | IN_FIELD, IN_FIELD
  | IN_QUOTED_FIELD, IN_QUOTED_FIELD
  | QUOTE_IN_QUOTED_FIELD, QUOTE_IN_QUOTED_FIELD
  | EAT_CRNL, EAT_CRNL => true
  | _, _ => false
  end.

(** The reader object: the fields of the record under construction, the
    parser state and the buffer of the field being read. *)
Record ReaderObj : Type := mkReader {
  fields : list string;
  state : ParserState;
  field : string
}.

(** [csv.field_size_limit()], 128 KiB by default. *)
Definition field_limit : N := 131072.

Definition field_len (self : ReaderObj) : N := N.of_nat (Str.length (field self)).

Definition parse_reset : ReaderObj :=
  {| fields := []; state := START_RECORD; field := "" |}.

Definition set_state (self : ReaderObj) (s : ParserState) : ReaderObj :=
  {| fields := fields self; state := s; field := field self |}.

Definition parse_save_field (self : ReaderObj) : ReaderObj :=
  {| fields := fields self ++ [field self]; state := state self; field := "" |}.

Definition parse_add_char (self : ReaderObj) (c : char) : result ReaderObj :=
  if (field_limit <=? field_len self)%N
  then Raise (CsvError "field larger than field limit (131072)")
  else Ok {| fields := fields self; state := state self;
             field := snoc (field self) c |}.

Definition is_newline (c : char) : bool := Char.eqb c LF || Char.eqb c CR.

(** What the reader is fed: a character of the line, or the end-of-line
    mark sent after the last character of each line. *)
Inductive input : Type :=
| Chr (c : char)
| EOL.

(** The [START_FIELD] case, also reached from [START_RECORD] by falling
    through. *)
Definition start_field (self : ReaderObj) (i : input) : result ReaderObj :=
  match i with
  | EOL => Ok (set_state (parse_save_field self) START_RECORD)
  | Chr c =>
      if is_newline c then Ok (set_state (parse_save_field self) EAT_CRNL)
      else if Char.eqb c DQUOTE then Ok (set_state self IN_QUOTED_FIELD)
      else if Char.eqb c COMMA then Ok (parse_save_field self)
      else self' <- parse_add_char self c ;; Ok (set_state self' IN_FIELD)
  end.

Definition parse_process_char (self : ReaderObj) (i : input) : result ReaderObj :=
  match state self with
  | START_RECORD =>
      match i with
      | EOL => Ok self
      | Chr c =>
          if is_newline c then Ok (set_state self EAT_CRNL)
          else start_field (set_state self START_FIELD) i
      end
  | START_FIELD => start_field self i
  | IN_FIELD =>
      match i with
      | EOL => Ok (set_state (parse_save_field self) START_RECORD)
      | Chr c =>
          if is_newline c then Ok (set_state (parse_save_field self) EAT_CRNL)
          else if Char.eqb c COMMA
          then Ok (set_state (parse_save_field self) START_FIELD)
          else parse_add_char self c
      end
  | IN_QUOTED_FIELD =>
      match i with
      | EOL => Ok self
      | Chr c =>
          if Char.eqb c DQUOTE then Ok (set_state self QUOTE_IN_QUOTED_FIELD)
          else parse_add_char self c
      end
  | QUOTE_IN_QUOTED_FIELD =>
      match i with
      | EOL => Ok (set_state (parse_save_field self) START_RECORD)
      | Chr c =>
          if Char.eqb c DQUOTE
          then self' <- parse_add_char self c ;; Ok (set_state self' IN_QUOTED_FIELD)
          else if Char.eqb c COMMA
          then Ok (set_state (parse_save_field self) START_FIELD)
          else if is_newline c
          then Ok (set_state (parse_save_field self) EAT_CRNL)
          else self' <- parse_add_char self c ;; Ok (set_state self' IN_FIELD)
      end
  | EAT_CRNL =>
      match i with
      | EOL => Ok (set_state self START_RECORD)
      | Chr c =>
          if is_newline c then Ok self
          else Raise (CsvError "new-line character seen in unquoted field - do you need to open the file in universal-newline mode?")
      end
  end.

(** The characters of one line, in order. *)
Fixpoint process_chars (self : ReaderObj) (line : string) : result ReaderObj :=
  match line with
  | "" => Ok self
  | String c rest =>
      self' <- parse_process_char self (Chr c) ;; process_chars self' rest
  end.

(** One line: its characters, then the end-of-line mark. *)
Definition process_line (self : ReaderObj) (line : string) : result ReaderObj :=
  self' <- process_chars self line ;; parse_process_char self' EOL.

(** The rows the reader yields over the remaining lines.  [Reader_iternext]
    resets the parser and consumes lines until the state is back at
    [START_RECORD]; the next call goes on with the next line.  When the
    lines run out inside a record, the pending field closes a last row if
    the buffer is not empty or a quoted field is open; otherwise iteration
    stops.  [self] is the parser inside the current call. *)
Fixpoint reader_rows (self : ReaderObj) (lines : list string)
  : result (list (list string)) :=
  match lines with
  | [] =>
      if negb (field_len self =? 0)%N || state_eqb (state self) IN_QUOTED_FIELD
      then Ok [fields (parse_save_field self)]
      else Ok []
  | line :: rest =>
      self' <- process_line self line ;;
      if state_eqb (state self') START_RECORD
      then rows <- reader_rows parse_reset rest ;; Ok (fields self' :: rows)
      else reader_rows self' rest
  end.

Definition reader (lines : list string) : result (list (list string)) :=
  reader_rows parse_reset lines.

End Csv.

(* ================================================================== *)
(** ** [re.search] for the two patterns of the program

    The patterns are built from literal text, one alternation inside one
    capturing group and, for the image pattern, a final [$].  The matcher
    is a backtracking matcher as the [re] module has it: alternatives are
    tried from left to right, and [search] tries the start positions from
    left to right and returns the first match found. *)

Module Re.

Inductive regex : Type :=
| Lit (c : char)              (* an ordinary character *)
| Empty                        (* the empty pattern *)
| Cat (r1 r2 : regex)          (* r1 r2 *)
| Alt (r1 r2 : regex)          (* r1|r2 *)
| Group (r : regex)            (* (r), capturing group 1 *)
| AtEnd.                       (* $ *)

(** The pattern of a literal text. *)
Fixpoint literal (s : string) : regex :=
  match s with
  | "" => Empty
  | String c s' => Cat (Lit c) (literal s')
  end.

(** The pattern of ['|'.join(words)]. *)
Fixpoint alternation (words : list string) : regex :=
  match words with
  | [] => Empty
  | [w] => literal w
  | w :: ws => Alt (literal w) (alternation ws)
  end.

(** The ASCII letters. *)
Definition is_lower (c : char) : bool := ((97 <=? c) && (c <=? 122))%N.
Definition is_upper (c : char) : bool := ((65 <=? c) && (c <=? 90))%N.

(** Under [re.IGNORECASE] the compiler of [re] keeps a pattern character
    that is not cased as it is, and replaces a cased one by its lower
    case [lo] together with the extra characters the case-fix table lists
    for [lo]; a text character then matches when its own lower case is
    one of these.  The patterns of the program are ASCII, so the three
    functions below are given for ASCII pattern characters. *)

(** [_sre.unicode_iscased] and [_sre.unicode_tolower] of a pattern
    character. *)
Definition iscased (p : char) : bool := is_lower p || is_upper p.

Definition lower (p : char) : char := if is_upper p then (p + 32)%N else p.

(** The case-fix table ([re._casefix]): U+0131, dotless i, goes with i,
    and U+017F, long s, goes with s. *)
Definition casefix (lo : char) : list char :=
  if Char.eqb lo 105 then [305%N]
  else if Char.eqb lo 115 then [383%N]
  else [].

(** Whether the lower case of the text character [c] is [lo]: [c] is
    [lo] itself or the capital of the letter [lo]; besides, U+0130,
    capital I with dot above, has lower case i, and U+212A, the Kelvin
    sign, has lower case k. *)
Definition lowers_to (lo c : char) : bool :=
  Char.eqb c lo ||
  (is_lower lo && Char.eqb c (lo - 32)%N) ||
  (Char.eqb lo 105 && Char.eqb c 304) ||
  (Char.eqb lo 107 && Char.eqb c 8490).

(** Comparison of a pattern character with a text character; [ignorecase]
    is the flag [re.IGNORECASE]. *)
Definition char_match (ignorecase : bool) (p c : char) : bool :=
  if ignorecase && iscased p
  then existsb (fun lo => lowers_to lo c) (lower p :: casefix (lower p))
  else Char.eqb p c.

(** [$] without [re.MULTILINE]: at the end of the text, or just before a
    line feed that is the last character of the text. *)
Definition at_end (rest : string) : bool :=
  match rest with
  | "" => true
  | String c "" => Char.eqb c LF
  | _ => false
  end.

(** [match_here ic r s g k]: match [r] at the front of [s]; [g] is the
    text captured by group 1 so far; [k] continues with the rest of the
    text.  A failing continuation makes the matcher try the next
    alternative. *)
Fixpoint match_here {A : Type} (ignorecase : bool) (r : regex) (s : string)
    (g : option string) (k : string -> option string -> option A) : option A :=
  match r with
  | Lit p =>
      match s with
      | String c s' => if char_match ignorecase p c then k s' g else None
      | "" => None
      end
  | Empty => k s g
  | Cat r1 r2 =>
      match_here ignorecase r1 s g (fun s1 g1 => match_here ignorecase r2 s1 g1 k)
  | Alt r1 r2 =>
      match match_here ignorecase r1 s g k with
      | Some a => Some a
      | None => match_here ignorecase r2 s g k
      end
  | Group r1 =>
      match_here ignorecase r1 s g
        (fun s1 _ => k s1 (Some (take (Str.length s - Str.length s1) s)))
  | AtEnd => if at_end s then k s g else None
  end.

(** A match object, reduced to [match.group(1)]. *)
Record Match : Type := mkMatch { group1 : option string }.

(** [re.search(pattern, s, flags)]: [None] when no position matches. *)
Fixpoint search (ignorecase : bool) (r : regex) (s : string) : option Match :=
  match match_here ignorecase r s None (fun _ g => Some (mkMatch g)) with
  | Some m => Some m
  | None =>
      match s with
      | "" => None
      | String _ s' => search ignorecase r s'
      end
  end.

End Re.

(* ================================================================== *)
(** ** Built-in functions *)

(** [max(d, key=d.get)] over the keys of [d] in insertion order: the
    running best is replaced only by a strictly greater value, so the
    first of several maximal keys is returned; an empty argument raises
    [ValueError]. *)
Fixpoint max_from (best : string) (best_val : Z) (items : list (string * Z)) : string :=
  match items with
  | [] => best
  | (k, v) :: rest =>
      if (best_val <? v)%Z then max_from k v rest else max_from best best_val rest
  end.

Definition max_by_value (d : Dict.t Z) : result string :=
  match d with
  | [] => Raise (ValueError "max() arg is an empty sequence")
  | (k, v) :: rest => Ok (max_from k v rest)
  end.

(** [len(xs)]. *)
Definition len {A : Type} (xs : list A) : Z := Z.of_nat (List.length xs).

(** [float(n)] for an [int] of magnitude below [2^53], where the
    conversion is exact. *)
Definition float_of_int (n : Z) : float :=
  if (n <? 0)%Z then PrimFloat.opp (PrimFloat.of_uint63 (Uint63.of_Z (- n)))
  else PrimFloat.of_uint63 (Uint63.of_Z n).

(** An [int] that a binary64 number holds exactly. *)
Definition is_small (n : Z) : bool := (Z.abs n <? 2 ^ 53)%Z.

(** An [int] as an unrounded floating-point datum. *)
Definition spec_of_int (n : Z) : spec_float :=
  match n with
  | Z0 => S754_zero false
  | Zpos p => S754_finite false p 0
  | Zneg p => S754_finite true p 0
  end.

(** [a / b] on two [int]s ([long_true_divide]): [ZeroDivisionError] for a
    zero divisor; for two small operands the binary64 quotient of their
    conversions; otherwise the exact quotient rounded once to binary64,
    with [OverflowError] when it is too large for a float. *)
Definition int_truediv (a b : Z) : result float :=
  if (b =? 0)%Z then Raise ZeroDivisionError
  else if is_small a && is_small b
  then Ok (PrimFloat.div (float_of_int a) (float_of_int b))
  else match SFdiv prec emax (spec_of_int a) (spec_of_int b) with
       | S754_infinity _ => Raise OverflowError
       | q => Ok (SF2Prim q)
       end.

(* ================================================================== *)
(** ** The program *)

Definition record : Type := Dict.t string.

Definition column_names : list string :=
  ["path"; "datetime_accessed"; "browser"; "request"; "size"].

(** [read_csv]: one dictionary per row the reader yields. *)
Definition read_csv (weblog_data : string) : result (list record) :=
  rows <- Csv.reader (StringIO_lines weblog_data) ;;
  Ok (map (fun row => Dict.of_pairs (combine column_names row)) rows).

Definition image_extensions : list string := ["jpg"; "gif"; "png"].

(** [r'\.(' + '|'.join(image_extensions) + ')$'] *)
Definition image_pattern : Re.regex :=
  Re.Cat (Re.Lit (ord "."))
         (Re.Cat (Re.Group (Re.alternation image_extensions)) Re.AtEnd).

(** The test of the loop body of [count_images]. *)
Definition is_image (path : string) : bool :=
  match Re.search true image_pattern path with
  | Some _ => true
  | None => false
  end.

Fixpoint count_images_from (image_count : Z) (records : list record) : result Z :=
  match records with
  | [] => Ok image_count
  | record :: rest =>
      path <- Dict.getitem record "path" ;;
      count_images_from (if is_image path then image_count + 1 else image_count)%Z rest
  end.

Definition count_images (records : list record) : result Z :=
  count_images_from 0%Z records.

Definition find_image_percentage (image_count rows_total : Z) : result float :=
  q <- int_truediv image_count rows_total ;;
  Ok (PrimFloat.mul q (float_of_int 100)).

Definition browser_types : list string :=
  ["Firefox"; "Chrome"; "Internet Explorer"; "Safari"].

(** [r'(' + '|'.join(browser_types) + ')'] *)
Definition browser_pattern : Re.regex :=
  Re.Group (Re.alternation browser_types).

(** The first loop of [find_most_used_browser]: every type starts at 0. *)
Definition initial_counts : Dict.t Z :=
  fold_left (fun counts browser => Dict.set browser 0%Z counts) browser_types [].

(** [browser_counts[found_browser] += 1] *)
Definition increment (found_browser : string) (browser_counts : Dict.t Z)
  : result (Dict.t Z) :=
  n <- Dict.getitem browser_counts found_browser ;;
  Ok (Dict.set found_browser (n + 1)%Z browser_counts).

(** The body of the second loop, for one record. *)
Definition count_browser (browser_counts : Dict.t Z) (record : record)
  : result (Dict.t Z) :=
  browser <- Dict.getitem record "browser" ;;
  match Re.search false browser_pattern browser with
  | Some m =>
      match Re.group1 m with
      | Some found_browser => increment found_browser browser_counts
      | None => Raise (KeyError "None")
      end
  | None => Ok browser_counts
  end.

(** The second loop. *)
Fixpoint count_browsers (browser_counts : Dict.t Z) (records : list record)
  : result (Dict.t Z) :=
  match records with
  | [] => Ok browser_counts
  | record :: rest =>
      browser_counts' <- count_browser browser_counts record ;;
      count_browsers browser_counts' rest
  end.

Definition find_most_used_browser (records : list record) : result string :=
  browser_counts <- count_browsers initial_counts records ;;
  max_by_value browser_counts.

(** The analysis part of [main]: the three values it reports, with the
    number of rows. *)
Record report : Type := mkReport {
  total_rows : Z;
  image_count : Z;
  image_percentage : float;
  browser_count : string
}.

Definition analyse (weblog_data : string) : result report :=
  records <- read_csv weblog_data ;;
  image_count <- count_images records ;;
  let total_rows := len records in
  image_percentage <- find_image_percentage image_count total_rows ;;
  browser_count <- find_most_used_browser records ;;
  Ok (mkReport total_rows image_count image_percentage browser_count).

(** [f"{x:.2f}"] in [main], as the number of hundredths it prints: the
    exact value of [x] times 100, rounded to the nearest integer, ties to
    even.  [None] for infinities and NaN. *)
Definition round_half_even (num den : Z) : Z :=
  let q := (num / den)%Z in
  let r := (num mod den)%Z in
  if (2 * r <? den)%Z then q
  else if (den <? 2 * r)%Z then (q + 1)%Z
  else if Z.even q then q else (q + 1)%Z.

Definition format_2f (x : float) : option Z :=
  match Prim2SF x with
  | S754_zero _ => Some 0%Z
  | S754_finite neg m e =>
      let hundredths :=
        if (0 <=? e)%Z then (100 * Zpos m * 2 ^ e)%Z
        else round_half_even (100 * Zpos m) (2 ^ (- e)) in
      Some (if neg then (- hundredths)%Z else hundredths)
  | _ => None
  end.

(* ================================================================== *)
(** ** Vocabulary of the properties

    Plain string functions in which the properties below are stated. *)

(** [s.find(w)]: the least position at which [w] occurs in [s]. *)
Fixpoint str_find (w s : string) : option nat :=
  if startswith w s then Some 0
  else match s with
       | "" => None
       | String _ s' => option_map S (str_find w s')
       end.

(** [w in s]. *)
Definition contains (w s : string) : bool :=
  match str_find w s with
  | Some _ => true
  | None => false
  end.

(** The character [c] is the character [p] up to letter case, in the way
    the image test takes it: [c] is [p] itself, or the capital of the
    lower-case letter [p]; besides, for the letter i, [c] may be U+0130
    (capital I with dot above) or U+0131 (dotless i). *)
Definition same_letter (p c : char) : bool :=
  Char.eqb c p ||
  (Re.is_lower p && Char.eqb c (p - 32)%N) ||
  (Char.eqb p 105 && (Char.eqb c 304 || Char.eqb c 305)).

(** Equality of two strings up to letter case, the first one written in
    lower case. *)
Fixpoint ci_equal (a b : string) : bool :=
  match a, b with
  | "", "" => true
  | String x a', String y b' => same_letter x y && ci_equal a' b'
  | _, _ => false
  end.

(** The character [c] is the lower-case letter [p] or its capital. *)
Definition same_ascii_letter (p c : char) : bool :=
  Char.eqb c p || (Re.is_lower p && Char.eqb c (p - 32)%N).

(** Equality of two strings up to the case of the letters a to z. *)
Fixpoint caseless_equal (a b : string) : bool :=
  match a, b with
  | "", "" => true
  | String x a', String y b' => same_ascii_letter x y && caseless_equal a' b'
  | _, _ => false
  end.

(** [s] ends with [suffix], up to the case of the letters a to z. *)
Fixpoint endswith_caseless (suffix s : string) : bool :=
  caseless_equal suffix s ||
  match s with
  | "" => false
  | String _ s' => endswith_caseless suffix s'
  end.

(** A pattern character that is neither a capital nor k nor s: for it
    [re.IGNORECASE] and [same_letter] agree. *)
Definition modest (p : char) : bool :=
  negb (Re.is_upper p) && negb (Char.eqb p 107) && negb (Char.eqb p 115).

Fixpoint all_modest (w : string) : bool :=
  match w with
  | "" => true
  | String p w' => modest p && all_modest w'
  end.

(** [s] ends with [suffix], up to letter case in the sense of
    [same_letter]. *)
Fixpoint endswith_ci (suffix s : string) : bool :=
  ci_equal suffix s ||
  match s with
  | "" => false
  | String _ s' => endswith_ci suffix s'
  end.

(** [s.split(',')]. *)
Fixpoint split_commas (s : string) : list string :=
  match s with
  | "" => [""]
  | String c s' =>
      if Char.eqb c COMMA then "" :: split_commas s'
      else match split_commas s' with
           | [] => [String c ""]
           | f :: fs => String c f :: fs
           end
  end.

(** A line without its final line feed. *)
Fixpoint chomp (line : string) : string :=
  match line with
  | "" => ""
  | String c rest =>
      match rest with
      | "" => if Char.eqb c LF then "" else line
      | _ => String c (chomp rest)
      end
  end.

(** The fields of a line read by plain comma splitting; a blank line has
    no field. *)
Definition fields_of_line (line : string) : list string :=
  match chomp line with
  | "" => []
  | body => split_commas body
  end.

(** The number of lines of a text: one per line feed, and one more for
    text after the last line feed. *)
Fixpoint line_count (text : string) : nat :=
  match text with
  | "" => 0
  | String c rest =>
      if Char.eqb c LF then S (line_count rest)
      else match rest with
           | "" => 1
           | _ => line_count rest
           end
  end.

(** A text is plain when it has no double quote and no carriage return
    and none of its lines is longer than the field size limit. *)
Definition plain (text : string) : bool :=
  negb (occurs DQUOTE text) && negb (occurs CR text) &&
  forallb (fun line => (N.of_nat (Str.length line) <=? Csv.field_limit)%N)
          (StringIO_lines text).

Definition has_field (name : string) (r : record) : bool :=
  match Dict.get name r with
  | Some _ => true
  | None => false
  end.

(** The tally with the four counts in the order of [browser_types]. *)
Definition tally (firefox chrome explorer safari : Z) : Dict.t Z :=
  [("Firefox", firefox); ("Chrome", chrome);
   ("Internet Explorer", explorer); ("Safari", safari)].

(** The rest of [s] after the word [w], when [s] starts with [w] (up to
    letter case under [ignorecase]). *)
Fixpoint strip (ignorecase : bool) (w s : string) : option string :=
  match w, s with
  | "", _ => Some s
  | String p w', String c s' =>
      if Re.char_match ignorecase p c then strip ignorecase w' s' else None
  | String _ _, "" => None
  end.

(** The words tried in order at the front of [s], each followed by the
    continuation [k]. *)
Fixpoint try_words {A : Type} (ignorecase : bool) (words : list string)
    (s : string) (g : option string)
    (k : string -> option string -> option A) : option A :=
  match words with
  | [] => None
  | w :: ws =>
      match match strip ignorecase w s with
            | Some rest => k rest g
            | None => None
            end with
      | Some a => Some a
      | None => try_words ignorecase ws s g k
      end
  end.

(** The word found by scanning [s] from the left: at the first position
    where some word of the list starts, the first such word. *)
Fixpoint leftmost (words : list string) (s : string) : option string :=
  match find (fun w => startswith w s) words with
  | Some w => Some w
  | None =>
      match s with
      | "" => None
      | String _ s' => leftmost words s'
      end
  end.

(** The word the first-match-in-list policy would pick: the first word of
    the list that occurs anywhere in [s]. *)
Definition first_listed (words : list string) (s : string) : option string :=
  find (fun w => contains w s) words.

(** No two words of the list start at the same place. *)
Definition prefix_disjoint (words : list string) : Prop :=
  forall w w' s, In w words -> In w' words ->
    startswith w s = true -> startswith w' s = true -> w = w'.

(** The claim that the first identifier of the list wins whenever a
    field holds several identifiers. *)
Definition first_match_in_list_policy : Prop :=
  forall (r : record) (browser w : string) (counts : Dict.t Z) (n : Z),
    Dict.get "browser" r = Some browser ->
    1 < List.length (filter (fun w' => contains w' browser) browser_types) ->
    first_listed browser_types browser = Some w ->
    Dict.get w counts = Some n ->
    count_browser counts r = Ok (Dict.set w (n + 1)%Z counts).

(** The claim that records lacking [path] or [browser] are passed over
    without an exception. *)
Definition absent_fields_are_tolerated : Prop :=
  forall records : list record,
    (exists n, count_images records = Ok n) /\
    (exists w, find_most_used_browser records = Ok w).

(** Four records in which Chrome and Firefox are seen twice each. *)
Definition tied_records : list record :=
  [[("browser", "Chrome 90")]; [("browser", "Firefox 88")];
   [("browser", "Chrome 91")]; [("browser", "Mozilla Firefox")]].

(** The record of a row with two columns only. *)
Definition short_rows : list record :=
  [[("path", "/a.jpg"); ("datetime_accessed", "2020-01-01")]].

Definition is_some {A : Type} (o : option A) : bool :=
  match o with
  | Some _ => true
  | None => false
  end.

(** The image test in words: the path ends with a dot and one of the
    extensions, or with these and one last line feed; each letter of the
    extension may be in lower or upper case, and an i may also be U+0130
    or U+0131. *)
Definition image_ending (path : string) : bool :=
  existsb (fun e => endswith_ci ("." ++ e) path ||
                    endswith_ci ("." ++ e ++ String LF "") path)
          image_extensions.

(** The path ends with a dot and one of the extensions, up to the case
    of its letters. *)
Definition ends_with_image_extension (path : string) : bool :=
  existsb (fun e => endswith_caseless ("." ++ e) path) image_extensions.

(** The claim that a record counts as an image exactly when its path
    ends with a dot and an extension. *)
Definition image_iff_extension_suffix : Prop :=
  forall (r : record) (path : string),
    Dict.get "path" r = Some path ->
    count_images [r] = Ok (if ends_with_image_extension path then 1 else 0)%Z.

(** A path with a line feed after its extension. *)
Definition path_with_newline : string := "image.jpg" ++ String LF "".

(** Two paths whose extension is gif with another i: U+0130, capital I
    with dot above, and U+0131, dotless i. *)
Definition path_with_dotted_I : string := "x.G" ++ String 304 "F".
Definition path_with_dotless_i : string := "x.g" ++ String 305 "f".

(** [f] put in front of the first string of a list. *)
Definition prepend (f : string) (l : list string) : list string :=
  match l with
  | [] => [f]
  | x :: xs => (f ++ x)%str :: xs
  end.

(** The record of a line read by plain comma splitting. *)
Definition record_of_line (line : string) : record :=
  Dict.of_pairs (combine column_names (fields_of_line line)).

(** A line of a plain text: a body free of line feeds, carriage returns
    and double quotes, ended by a line feed or, for a last line that is
    not empty, by the end of the text. *)
Definition plain_line (line : string) : Prop :=
  exists body,
    (line = (body ++ String LF "")%str \/ (line = body /\ body <> "")) /\
    occurs LF body = false /\ occurs CR body = false /\
    occurs DQUOTE body = false /\
    (N.of_nat (Str.length body) <= Csv.field_limit)%N.

(** The claim that every line is split at its commas, whatever it holds. *)
Definition plain_comma_splitting : Prop :=
  forall text : string,
    read_csv text = Ok (map record_of_line (StringIO_lines text)).

(** The claim that every line gives one record. *)
Definition one_record_per_line : Prop :=
  forall (text : string) (rs : list record),
    read_csv text = Ok rs -> List.length rs = line_count text.

(** The claim that every record of the parser has [path]. *)
Definition every_record_has_path : Prop :=
  forall (text : string) (rs : list record),
    read_csv text = Ok rs -> forallb (has_field "path") rs = true.

(** A row with a quoted field that holds a comma. *)
Definition quoted_row : string :=
  String DQUOTE "a,b" ++ String DQUOTE ",c" ++ String LF "".

(** A quoted field that runs over two lines. *)
Definition quoted_lines : string :=
  String DQUOTE "a" ++ String LF "b" ++ String DQUOTE ",c" ++ String LF "".

(** A row followed by a blank line. *)
Definition row_and_blank_line : string :=
  "/a.jpg,2020-01-01" ++ String LF (String LF "").

(** Rows with more and with fewer than five columns. *)
Definition uneven_rows : string :=
  "a,b,c,d,e,f,g" ++ String LF "x,y" ++ String LF "".

(** The parser is inside a row, between two fields or within one. *)
Definition in_row (self : Csv.ReaderObj) : Prop :=
  (Csv.state self = Csv.START_FIELD /\ Csv.field self = "") \/
  Csv.state self = Csv.IN_FIELD.

(** The binary64 datum of an integer: the integer rounded to nearest,
    ties to even; below [2^53] the integer itself. *)
Definition binary64_of_int (n : Z) : spec_float :=
  binary_normalize prec emax n 0 false.

(** The percentage by the operations of IEEE 754 on binary64 data: the
    quotient of the two counts, rounded, times 100, rounded. *)
Definition ieee_percentage (image_count total : Z) : spec_float :=
  SF64mul (SF64div (binary64_of_int image_count) (binary64_of_int total))
          (binary64_of_int 100).

(** The quotient of two integers as IEEE 754 defines a division: the
    exact ratio of the two, rounded once to binary64, to nearest with
    ties to even; an infinity when it is too large. *)
Definition true_quotient (a b : Z) : spec_float :=
  SFdiv prec emax (spec_of_int a) (spec_of_int b).

(** The claim that the percentage is returned for every count and every
    total above zero. *)
Definition percentage_always_returned : Prop :=
  forall image_count total : Z,
    (0 <= image_count)%Z -> (0 < total)%Z ->
    exists p, find_image_percentage image_count total = Ok p.

(** The access log of the end-to-end example. *)
Definition example_log : string :=
  "/img/a.jpg,2020-01-01,Mozilla Firefox 88,GET /img/a.jpg,200" ++ String LF
  "/index.html,2020-01-01,Chrome 90,GET /index.html,150" ++ String LF
  "/pics/b.PNG,2020-01-01,Firefox 89,GET /pics/b.PNG,300" ++ String LF "".

(** The record has a [path] that passes the image test. *)
Definition is_image_record (r : record) : bool :=
  match Dict.get "path" r with
  | Some path => image_ending path
  | None => false
  end.

(** The record has a [browser] text in which an identifier occurs. *)
Definition names_a_browser (r : record) : bool :=
  match Dict.get "browser" r with
  | Some browser => existsb (fun w => contains w browser) browser_types
  | None => false
  end.

(** The sum of the counts of a tally. *)
Definition tally_total (d : Dict.t Z) : Z :=
  fold_right Z.add 0%Z (map snd d).

(** [s] written [2^n] times. *)
Fixpoint doubled (n : nat) (s : string) : string :=
  match n with
  | O => s
  | S n' => doubled n' (s ++ s)
  end.

(** A field of 131073 characters, one more than the limit. *)
Definition overlong_field : string := String (ord "a") (doubled 17 "a").

(** The identifier the detector finds in a record, if any. *)
Definition detected (r : record) : option string :=
  match Dict.get "browser" r with
  | Some browser => leftmost browser_types browser
  | None => None
  end.

(** The number of records in which the identifier [w] is the one found. *)
Definition seen (w : string) (records : list record) : Z :=
  Z.of_nat (List.length
              (filter (fun r => match detected r with
                                | Some w' => Str.eqb w' w
                                | None => false
                                end) records)).

(** A string made of line feeds and carriage returns only. *)
Fixpoint all_newline (s : string) : bool :=
  match s with
  | "" => true
  | String c s' => Csv.is_newline c && all_newline s'
  end.

(** A line without the line feeds and carriage returns at its end:
    [line.rstrip('\r\n')]. *)
Fixpoint rstrip_eol (line : string) : string :=
  match line with
  | "" => ""
  | String c rest =>
      match rstrip_eol rest with
      | "" => if Csv.is_newline c then "" else String c ""
      | r => String c r
      end
  end.

Definition starts_with_quote (f : string) : bool :=
  match f with
  | String c _ => Char.eqb c DQUOTE
  | "" => false
  end.

(** A field the reader takes as it is written: it does not start with a
    double quote and is within the field size limit. *)
Definition bare_field (f : string) : bool :=
  negb (starts_with_quote f) &&
  (N.of_nat (Str.length f) <=? Csv.field_limit)%N.

(** A line is tidy when line feeds and carriage returns stand at its end
    only and each of its comma separated fields is bare. *)
Definition tidy_line (line : string) : bool :=
  negb (occurs CR (rstrip_eol line)) && negb (occurs LF (rstrip_eol line)) &&
  forallb bare_field (split_commas (rstrip_eol line)).

(** The fields of a line read by plain comma splitting, the line end
    removed; a blank line has no field. *)
Definition fields_of_row (line : string) : list string :=
  match rstrip_eol line with
  | "" => []
  | content => split_commas content
  end.

Definition record_of_row (line : string) : record :=
  Dict.of_pairs (combine column_names (fields_of_row line)).

(** A line closes when the reader, at the start of a record, accepts it
    and is back at the start of a record after it: no quoted field is
    left open at its end. *)
Definition line_closes (line : string) : bool :=
  match Csv.process_line Csv.parse_reset line with
  | Ok self => Csv.state_eqb (Csv.state self) Csv.START_RECORD
  | Raise _ => false
  end.

(** The row the reader makes of a line that closes. *)
Definition row_of_line (line : string) : list string :=
  match Csv.process_line Csv.parse_reset line with
  | Ok self => Csv.fields self
  | Raise _ => []
  end.

(** The parser is inside a row: between two fields with an empty buffer,
    or within a field that has at least one character. *)
Definition within_row (self : Csv.ReaderObj) : Prop :=
  (Csv.state self = Csv.START_FIELD /\ Csv.field self = "") \/
  (Csv.state self = Csv.IN_FIELD /\ Csv.field self <> "").

(** Two rows ended by carriage return and line feed, the second with a
    quoted field, and a blank line. *)
Definition crlf_log : string :=
  "/a.jpg,2020" ++ String CR (String LF "") ++
  String DQUOTE "GET /b,c" ++ String DQUOTE ",200" ++ String CR (String LF "") ++
  String CR (String LF "").

(** A row with a carriage return in the middle. *)
Definition row_with_bare_CR : string := "a" ++ String CR "b".

(* ================================================================== *)
(** * Properties *)

Arguments Re.char_match : simpl never.

(** ** Characters *)

Lemma char_eqb_spec (a b : char) : reflect (a = b) (Char.eqb a b).
Proof. apply N.eqb_spec. Qed.

Lemma char_eqb_eq (a b : char) : Char.eqb a b = true <-> a = b.
Proof. apply N.eqb_eq. Qed.

Lemma char_eqb_refl (a : char) : Char.eqb a a = true.
Proof. apply N.eqb_refl. Qed.

Lemma string_eqb_spec (a b : string) : reflect (a = b) (Str.eqb a b).
Proof.
  revert b. induction a as [|x a IH]; intros [|y b]; simpl; try (constructor; congruence).
  destruct (char_eqb_spec x y) as [->|Hne]; simpl.
  - destruct (IH b) as [->|Hne]; constructor; congruence.
  - constructor. congruence.
Qed.

Lemma string_eqb_refl (a : string) : Str.eqb a a = true.
Proof. destruct (string_eqb_spec a a); congruence. Qed.

Lemma string_dec (a b : string) : {a = b} + {a <> b}.
Proof. destruct (string_eqb_spec a b); [left | right]; assumption. Qed.

(** ** Strings *)

Lemma append_nil_r (s : string) : (s ++ "")%str = s.
Proof. induction s as [|c s IH]; simpl; [reflexivity | now rewrite IH]. Qed.

Lemma append_assoc (a b c : string) : ((a ++ b) ++ c = a ++ (b ++ c))%str.
Proof. induction a as [|x a IH]; simpl; [reflexivity | now rewrite IH]. Qed.

Lemma length_append (a b : string) :
  Str.length (a ++ b)%str = Str.length a + Str.length b.
Proof. induction a as [|x a IH]; simpl; [reflexivity | now rewrite IH]. Qed.

Lemma take_append (a b : string) :
  take (Str.length (a ++ b)%str - Str.length b) (a ++ b)%str = a.
Proof.
  rewrite length_append, Nat.add_sub.
  induction a as [|x a IH]; simpl.
  - destruct b; reflexivity.
  - now rewrite IH.
Qed.

Lemma startswith_split (p s : string) :
  startswith p s = true <-> exists rest, s = (p ++ rest)%str.
Proof.
  revert s; induction p as [|a p IH]; intros s; simpl.
  - split; [intros _; now exists s | reflexivity].
  - destruct s as [|b s].
    + split; [discriminate | intros [rest H]; discriminate].
    + rewrite andb_true_iff, char_eqb_eq, IH. split.
      * intros [-> [rest ->]]. now exists rest.
      * intros [rest H]. injection H as -> ->. split; [reflexivity | now exists rest].
Qed.

(* ------------------------------------------------------------------ *)
(** ** The final reduction: [max] over the tally *)

Section FirstMaximum.

Let below (n : Z) (kv : string * Z) : Prop := (snd kv < n)%Z.
Let at_most (n : Z) (kv : string * Z) : Prop := (snd kv <= n)%Z.

(** [max_from] keeps the first entry that no other entry exceeds. *)
Lemma max_from_first_maximum :
  forall rest seen k v before after,
    seen = before ++ (k, v) :: after ->
    Forall (below v) before ->
    Forall (at_most v) after ->
    exists n pre post,
      seen ++ rest = pre ++ (max_from k v rest, n) :: post /\
      Forall (below n) pre /\ Forall (at_most n) post.
Proof.
  induction rest as [|[k' v'] rest IH]; intros seen k v before after Hseen Hb Ha.
  - exists v, before, after. rewrite app_nil_r. auto.
  - simpl. destruct (v <? v')%Z eqn:Hlt.
    + apply Z.ltb_lt in Hlt.
      destruct (IH (seen ++ [(k', v')]) k' v' seen []) as (n & pre & post & E & Hp & Hq).
      * reflexivity.
      * subst seen. apply Forall_app. split.
        -- eapply Forall_impl; [|exact Hb]. unfold below. intros kv H. lia.
        -- constructor; [unfold below; simpl; lia|].
           eapply Forall_impl; [|exact Ha]. unfold at_most, below. intros kv H. lia.
      * constructor.
      * exists n, pre, post. rewrite <- app_assoc in E. auto.
    + apply Z.ltb_ge in Hlt.
      destruct (IH (seen ++ [(k', v')]) k v before (after ++ [(k', v')]))
        as (n & pre & post & E & Hp & Hq).
      * subst seen. now rewrite <- app_assoc.
      * exact Hb.
      * apply Forall_app. split; [exact Ha|]. constructor; [exact Hlt | constructor].
      * exists n, pre, post. rewrite <- app_assoc in E. auto.
Qed.

Lemma max_by_value_first_maximum :
  forall d, d <> [] ->
    exists w n pre post,
      max_by_value d = Ok w /\ d = pre ++ (w, n) :: post /\
      Forall (fun kv => (snd kv < n)%Z) pre /\
      Forall (fun kv => (snd kv <= n)%Z) post.
Proof.
  intros [|[k v] rest] Hne; [contradiction|].
  destruct (max_from_first_maximum rest [(k, v)] k v [] [])
    as (n & pre & post & E & Hp & Hq); try constructor.
  exists (max_from k v rest), n, pre, post. simpl in E. auto.
Qed.

End FirstMaximum.

(* ------------------------------------------------------------------ *)
(** ** The matcher on words and alternations of words *)

Lemma match_literal {A : Type} (ic : bool) (w : string) :
  forall s g (k : string -> option string -> option A),
    Re.match_here ic (Re.literal w) s g k =
    match strip ic w s with
    | Some rest => k rest g
    | None => None
    end.
Proof.
  induction w as [|p w IH]; intros s g k; simpl; [reflexivity|].
  destruct s as [|c s]; [reflexivity|].
  destruct (Re.char_match ic p c); [apply IH | reflexivity].
Qed.

Lemma match_alternation {A : Type} (ic : bool) (words : list string) :
  words <> [] ->
  forall s g (k : string -> option string -> option A),
    Re.match_here ic (Re.alternation words) s g k = try_words ic words s g k.
Proof.
  induction words as [|w ws IH]; intros Hne s g k; [contradiction|].
  destruct ws as [|w2 ws].
  - simpl. rewrite match_literal.
    destruct (strip ic w s) as [rest|]; [destruct (k rest g)|]; reflexivity.
  - change (Re.alternation (w :: w2 :: ws))
      with (Re.Alt (Re.literal w) (Re.alternation (w2 :: ws))).
    simpl Re.match_here. rewrite match_literal, IH by discriminate. reflexivity.
Qed.

Lemma strip_startswith (w : string) :
  forall s,
    match strip false w s with
    | Some rest => startswith w s = true /\ s = (w ++ rest)%str
    | None => startswith w s = false
    end.
Proof.
  induction w as [|p w IH]; intros s; simpl; [auto|].
  destruct s as [|c s]; [reflexivity|].
  unfold Re.char_match. destruct (char_eqb_spec p c) as [->|Hne]; simpl; [|reflexivity].
  specialize (IH s). destruct (strip false w s) as [rest|]; [|exact IH].
  destruct IH as [H1 H2]. split; [exact H1 | now rewrite <- H2].
Qed.

Lemma try_words_find (words : list string) (s : string) :
  try_words false words s None
    (fun s1 _ => Some (Re.mkMatch (Some (take (Str.length s - Str.length s1) s)))) =
  option_map (fun w => Re.mkMatch (Some w)) (find (fun w => startswith w s) words).
Proof.
  induction words as [|w ws IH]; simpl; [reflexivity|].
  pose proof (strip_startswith w s) as H.
  destruct (strip false w s) as [rest|].
  - destruct H as [-> E]. simpl. subst s. now rewrite take_append.
  - rewrite H. exact IH.
Qed.

Lemma match_words (words : list string) (s : string) :
  words <> [] ->
  Re.match_here false (Re.Group (Re.alternation words)) s None
    (fun _ g => Some (Re.mkMatch g)) =
  option_map (fun w => Re.mkMatch (Some w)) (find (fun w => startswith w s) words).
Proof.
  intros Hne. simpl. rewrite match_alternation by exact Hne. apply try_words_find.
Qed.

Lemma search_words (words : list string) :
  words <> [] ->
  forall s,
    Re.search false (Re.Group (Re.alternation words)) s =
    option_map (fun w => Re.mkMatch (Some w)) (leftmost words s).
Proof.
  intros Hne. induction s as [|c s IH].
  - unfold Re.search. rewrite match_words by exact Hne. simpl leftmost.
    destruct (find (fun w => startswith w "") words); reflexivity.
  - change (Re.search false (Re.Group (Re.alternation words)) (String c s))
      with (match Re.match_here false (Re.Group (Re.alternation words)) (String c s) None
                    (fun _ g => Some (Re.mkMatch g)) with
            | Some m => Some m
            | None => Re.search false (Re.Group (Re.alternation words)) s
            end).
    rewrite match_words by exact Hne. simpl leftmost.
    destruct (find (fun w => startswith w (String c s)) words); [reflexivity | exact IH].
Qed.

(** *** Words found by the leftmost scan *)

Lemma find_all_false {A : Type} (f : A -> bool) (l : list A) :
  (forall x, In x l -> f x = false) -> find f l = None.
Proof.
  induction l as [|x l IH]; intros H; simpl; [reflexivity|].
  rewrite (H x) by now left. apply IH. intros y Hy. apply H. now right.
Qed.

Lemma leftmost_in (words : list string) :
  forall s w, leftmost words s = Some w -> In w words.
Proof.
  induction s as [|c s IH]; intros w; simpl.
  - destruct (find (fun w0 => startswith w0 "") words) eqn:E; [|discriminate].
    intros [= <-]. now apply find_some in E.
  - destruct (find (fun w0 => startswith w0 (String c s)) words) eqn:E.
    + intros [= <-]. now apply find_some in E.
    + apply IH.
Qed.

Lemma str_find_zero (w s : string) :
  str_find w s = Some 0 <-> startswith w s = true.
Proof.
  destruct s as [|c s]; simpl.
  - destruct (startswith w ""); split; congruence.
  - destruct (startswith w (String c s)); [split; congruence|].
    destruct (str_find w s); simpl; split; congruence.
Qed.

Lemma str_find_next (w : string) (c : char) (s : string) :
  startswith w (String c s) = false ->
  str_find w (String c s) = option_map S (str_find w s).
Proof. intros H. simpl str_find. now rewrite H. Qed.

Lemma leftmost_none (words : list string) :
  forall s, (forall w, In w words -> contains w s = false) -> leftmost words s = None.
Proof.
  assert (Hpre : forall s w, contains w s = false -> startswith w s = false).
  { intros s w. unfold contains. destruct (startswith w s) eqn:E; [|reflexivity].
    apply str_find_zero in E. now rewrite E. }
  induction s as [|c s IH]; intros H; simpl.
  - rewrite find_all_false; [reflexivity|]. intros w Hw. apply Hpre. now apply H.
  - rewrite find_all_false.
    + apply IH. intros w Hw. specialize (H w Hw). pose proof (Hpre _ _ H) as Hs.
      unfold contains in *. rewrite str_find_next in H by exact Hs.
      destruct (str_find w s); [discriminate | reflexivity].
    + intros w Hw. apply Hpre. now apply H.
Qed.

Lemma leftmost_some (words : list string) :
  prefix_disjoint words ->
  forall s w n,
    In w words ->
    str_find w s = Some n ->
    (forall w' n', In w' words -> str_find w' s = Some n' -> n <= n') ->
    leftmost words s = Some w.
Proof.
  intros Hd. induction s as [|c s IH]; intros w n Hw Hf Hmin.
  - simpl in Hf. destruct (startswith w "") eqn:E; [|discriminate].
    simpl. destruct (find (fun w0 => startswith w0 "") words) as [w'|] eqn:F.
    + apply find_some in F. destruct F as [F1 F2]. f_equal. now apply (Hd w' w "").
    + apply find_none with (x := w) in F; [congruence | exact Hw].
  - simpl leftmost.
    destruct (find (fun w0 => startswith w0 (String c s)) words) as [w'|] eqn:F.
    + apply find_some in F. destruct F as [F1 F2].
      pose proof (proj2 (str_find_zero _ _) F2) as Z0.
      specialize (Hmin w' 0 F1 Z0). assert (n = 0) by lia. subst n.
      apply str_find_zero in Hf. f_equal. now apply (Hd w' w (String c s)).
    + assert (Hs : forall w0, In w0 words -> startswith w0 (String c s) = false).
      { intros w0 H0. now apply find_none with (x := w0) in F. }
      rewrite str_find_next in Hf by now apply Hs.
      destruct (str_find w s) as [m|] eqn:Em; [|discriminate]. simpl in Hf.
      injection Hf as <-.
      apply (IH w m Hw Em). intros w' n' Hw' Hf'.
      specialize (Hmin w' (S n') Hw'). rewrite str_find_next in Hmin by now apply Hs.
      rewrite Hf' in Hmin. specialize (Hmin eq_refl). lia.
Qed.

Lemma startswith_cons (a b : char) (p s : string) :
  startswith (String a p) (String b s) = Char.eqb a b && startswith p s.
Proof. reflexivity. Qed.

Lemma browser_types_prefix_disjoint : prefix_disjoint browser_types.
Proof.
  intros w w' s Hw Hw' H H'.
  destruct s as [|c s].
  - simpl in Hw. destruct Hw as [<-|[<-|[<-|[<-|[]]]]]; discriminate.
  - simpl in Hw, Hw'.
    destruct Hw as [<-|[<-|[<-|[<-|[]]]]]; destruct Hw' as [<-|[<-|[<-|[<-|[]]]]];
      try reflexivity;
      rewrite startswith_cons in H, H'; apply andb_true_iff in H, H';
      destruct H as [H _], H' as [H' _];
      apply char_eqb_eq in H, H'; congruence.
Qed.

(* ------------------------------------------------------------------ *)
(** ** The tally *)

Lemma keys_get {V : Type} (k : string) (d : Dict.t V) :
  In k (Dict.keys d) -> exists v, Dict.get k d = Some v.
Proof.
  induction d as [|[k' v'] d IH]; simpl; [contradiction|].
  intros [->|H].
  - rewrite string_eqb_refl. now exists v'.
  - destruct (Str.eqb k' k); [now exists v' | now apply IH].
Qed.

Lemma set_keys {V : Type} (k : string) (v v0 : V) (d : Dict.t V) :
  Dict.get k d = Some v0 -> Dict.keys (Dict.set k v d) = Dict.keys d.
Proof.
  induction d as [|[k' v'] d IH]; simpl; [discriminate|].
  destruct (Str.eqb k' k); simpl; [reflexivity|].
  intros H. now rewrite IH.
Qed.

Lemma count_browser_found (counts : Dict.t Z) (r : record) (browser : string) :
  Dict.get "browser" r = Some browser ->
  count_browser counts r =
  match leftmost browser_types browser with
  | Some w => increment w counts
  | None => Ok counts
  end.
Proof.
  intros H. unfold count_browser, Dict.getitem. rewrite H. simpl bind.
  unfold browser_pattern. rewrite search_words by discriminate.
  destruct (leftmost browser_types browser); reflexivity.
Qed.

Lemma count_browser_ok (counts : Dict.t Z) (r : record) (browser : string) :
  Dict.keys counts = browser_types ->
  Dict.get "browser" r = Some browser ->
  exists counts', count_browser counts r = Ok counts' /\
                  Dict.keys counts' = browser_types.
Proof.
  intros Hk Hb. rewrite (count_browser_found _ _ _ Hb).
  destruct (leftmost browser_types browser) as [w|] eqn:E; [|now exists counts].
  apply leftmost_in in E. rewrite <- Hk in E.
  destruct (keys_get _ _ E) as [v Hv].
  unfold increment, Dict.getitem. rewrite Hv. simpl.
  eexists. split; [reflexivity|]. now rewrite (set_keys _ _ _ _ Hv).
Qed.

Lemma count_browser_missing (counts : Dict.t Z) (r : record) :
  Dict.get "browser" r = None ->
  count_browser counts r = Raise (KeyError "browser").
Proof. intros H. unfold count_browser, Dict.getitem. now rewrite H. Qed.

Lemma count_browsers_keys (records : list record) :
  forall counts counts',
    Dict.keys counts = browser_types ->
    count_browsers counts records = Ok counts' ->
    Dict.keys counts' = browser_types.
Proof.
  induction records as [|r records IH]; intros counts counts' Hk; simpl.
  - now intros [= <-].
  - destruct (Dict.get "browser" r) as [browser|] eqn:Hb.
    + destruct (count_browser_ok _ _ _ Hk Hb) as (c1 & E & Hk1). rewrite E. simpl.
      now apply IH.
    + rewrite count_browser_missing by exact Hb. discriminate.
Qed.

Lemma keys_tally (counts : Dict.t Z) :
  Dict.keys counts = browser_types -> exists a b c d, counts = tally a b c d.
Proof.
  destruct counts as [|[k1 a] [|[k2 b] [|[k3 c] [|[k4 d] [|? ?]]]]]; try discriminate.
  simpl. intros [= -> -> -> ->]. now exists a, b, c, d.
Qed.

(** C3. The detector returns the first entry of the final tally that no
    other entry exceeds: its count is the maximum, and every identifier
    placed before it in the fixed list has a strictly smaller count.  The
    final tally always holds the four identifiers in the order of the
    fixed list.  The tally Firefox 2, Chrome 2, Internet Explorer 0,
    Safari 0 yields Firefox, and so does the all-zero tally. *)
Theorem most_used_browser_is_first_maximum :
  (forall records counts,
      count_browsers initial_counts records = Ok counts ->
      (exists a b c d, counts = tally a b c d) /\
      exists w n pre post,
        find_most_used_browser records = Ok w /\
        counts = pre ++ (w, n) :: post /\
        Forall (fun kv => (snd kv < n)%Z) pre /\
        Forall (fun kv => (snd kv <= n)%Z) post) /\
  max_by_value (tally 2 2 0 0) = Ok "Firefox" /\
  max_by_value (tally 0 0 0 0) = Ok "Firefox".
Proof.
  split; [|split; reflexivity].
  intros records counts H.
  assert (Hk : Dict.keys counts = browser_types)
    by (apply (count_browsers_keys records initial_counts); [reflexivity | exact H]).
  split; [now apply keys_tally|].
  unfold find_most_used_browser. rewrite H. simpl bind.
  apply max_by_value_first_maximum. intros ->. discriminate.
Qed.

Lemma most_used_browser_is_first_maximum_witness :
  exists w n pre post,
    find_most_used_browser tied_records = Ok w /\
    tally 2 2 0 0 = pre ++ (w, n) :: post /\
    Forall (fun kv => (snd kv < n)%Z) pre /\
    Forall (fun kv => (snd kv <= n)%Z) post.
Proof.
  exact (proj2 (proj1 most_used_browser_is_first_maximum tied_records
                       (tally 2 2 0 0) eq_refl)).
Defined.

(* ------------------------------------------------------------------ *)
(** ** Which identifier is counted *)

(** C1, as amended.  The identifier counted for a record is the one whose
    occurrence starts leftmost in the [browser] text: when [w] occurs at
    position [n] and no identifier occurs at an earlier position, the
    count of [w] goes up by one and the rest of the tally is unchanged.
    The order of the list plays no part, as no two identifiers can start
    at the same position. *)
Theorem leftmost_identifier_is_counted :
  forall (r : record) (browser w : string) (n : nat) (counts : Dict.t Z) (c : Z),
    Dict.get "browser" r = Some browser ->
    In w browser_types ->
    str_find w browser = Some n ->
    (forall w' n', In w' browser_types -> str_find w' browser = Some n' -> n <= n') ->
    Dict.get w counts = Some c ->
    count_browser counts r = Ok (Dict.set w (c + 1)%Z counts).
Proof.
  intros r browser w n counts c Hb Hw Hf Hmin Hc.
  rewrite (count_browser_found _ _ _ Hb).
  rewrite (leftmost_some _ browser_types_prefix_disjoint _ _ _ Hw Hf Hmin).
  unfold increment, Dict.getitem. now rewrite Hc.
Qed.

Lemma leftmost_identifier_is_counted_witness :
  count_browser initial_counts [("browser", "Mobile Safari, like Chrome")] =
  Ok (Dict.set "Safari" (0 + 1)%Z initial_counts).
Proof.
  apply (leftmost_identifier_is_counted
           [("browser", "Mobile Safari, like Chrome")]
           "Mobile Safari, like Chrome" "Safari" 7 initial_counts 0%Z).
  - reflexivity.
  - simpl. auto.
  - reflexivity.
  - intros w' n' Hw' Hf'. simpl in Hw'.
    destruct Hw' as [<-|[<-|[<-|[<-|[]]]]]; vm_compute in Hf'; inversion Hf'; lia.
  - reflexivity.
Defined.

(** C1, as stated, fails: for the text [Safari Chrome] the first listed
    identifier that occurs is Chrome, and the detector counts Safari. *)
Lemma first_match_in_list_policy_fails :
  first_listed browser_types "Safari Chrome" = Some "Chrome" /\
  count_browser initial_counts [("browser", "Safari Chrome")] = Ok (tally 0 0 0 1) /\
  ~ first_match_in_list_policy.
Proof.
  split; [reflexivity|]. split; [reflexivity|].
  intros H.
  specialize (H [("browser", "Safari Chrome")] "Safari Chrome" "Chrome"
                initial_counts 0%Z eq_refl).
  assert (E : count_browser initial_counts [("browser", "Safari Chrome")] =
              Ok (Dict.set "Chrome" (0 + 1)%Z initial_counts)).
  { apply H; [vm_compute; lia | reflexivity | reflexivity]. }
  vm_compute in E. discriminate E.
Qed.

(** C9.  The identifiers are matched in their exact letter case: when no
    identifier occurs in the [browser] text as it is spelled in the list,
    the tally is left as it was, whatever the text holds in another
    letter case. *)
Theorem browser_match_is_case_sensitive :
  forall (r : record) (browser : string) (counts : Dict.t Z),
    Dict.get "browser" r = Some browser ->
    (forall w, In w browser_types -> contains w browser = false) ->
    count_browser counts r = Ok counts.
Proof.
  intros r browser counts Hb Hnone.
  rewrite (count_browser_found _ _ _ Hb).
  now rewrite (leftmost_none _ _ Hnone).
Qed.

Lemma browser_match_is_case_sensitive_witness :
  count_browser initial_counts [("browser", "firefox CHROME safari")] =
  Ok initial_counts.
Proof.
  apply (browser_match_is_case_sensitive
           [("browser", "firefox CHROME safari")] "firefox CHROME safari").
  - reflexivity.
  - intros w Hw. simpl in Hw.
    destruct Hw as [<-|[<-|[<-|[<-|[]]]]]; reflexivity.
Defined.

(* ------------------------------------------------------------------ *)
(** ** Records that lack a field *)

Lemma count_images_from_ok (records : list record) :
  forall acc,
    forallb (has_field "path") records = true ->
    exists n, count_images_from acc records = Ok n.
Proof.
  induction records as [|r records IH]; intros acc H; simpl.
  - now exists acc.
  - simpl in H. apply andb_true_iff in H. destruct H as [Hr H].
    unfold has_field in Hr. unfold Dict.getitem.
    destruct (Dict.get "path" r) as [p|]; [|discriminate]. simpl.
    now apply IH.
Qed.

Lemma count_images_from_missing (records : list record) :
  forall acc,
    forallb (has_field "path") records = false ->
    count_images_from acc records = Raise (KeyError "path").
Proof.
  induction records as [|r records IH]; intros acc H; simpl in *; [discriminate|].
  unfold has_field in H. unfold Dict.getitem.
  destruct (Dict.get "path" r) as [p|]; [|reflexivity]. simpl in *.
  now apply IH.
Qed.

Lemma count_browsers_ok (records : list record) :
  forall counts,
    Dict.keys counts = browser_types ->
    forallb (has_field "browser") records = true ->
    exists counts', count_browsers counts records = Ok counts' /\
                    Dict.keys counts' = browser_types.
Proof.
  induction records as [|r records IH]; intros counts Hk H; simpl.
  - now exists counts.
  - simpl in H. apply andb_true_iff in H. destruct H as [Hr H].
    unfold has_field in Hr.
    destruct (Dict.get "browser" r) as [b|] eqn:Hb; [|discriminate].
    destruct (count_browser_ok _ _ _ Hk Hb) as (c1 & E & Hk1). rewrite E. simpl.
    now apply IH.
Qed.

Lemma count_browsers_missing (records : list record) :
  forall counts,
    Dict.keys counts = browser_types ->
    forallb (has_field "browser") records = false ->
    count_browsers counts records = Raise (KeyError "browser").
Proof.
  induction records as [|r records IH]; intros counts Hk H; simpl in *; [discriminate|].
  unfold has_field in H.
  destruct (Dict.get "browser" r) as [b|] eqn:Hb.
  - destruct (count_browser_ok _ _ _ Hk Hb) as (c1 & E & Hk1). rewrite E. simpl in *.
    now apply IH.
  - now rewrite count_browser_missing.
Qed.

(** C2, as amended.  The two scans index the record directly.  When every
    record has [path], the image count is returned, and when every record
    has [browser], a browser is returned; a record without [path] makes
    [count_images] raise [KeyError('path')], and a record without
    [browser] makes [find_most_used_browser] raise [KeyError('browser')]. *)
Theorem missing_field_raises_KeyError :
  forall records : list record,
    (forallb (has_field "path") records = true ->
     exists n, count_images records = Ok n) /\
    (forallb (has_field "path") records = false ->
     count_images records = Raise (KeyError "path")) /\
    (forallb (has_field "browser") records = true ->
     exists w, find_most_used_browser records = Ok w) /\
    (forallb (has_field "browser") records = false ->
     find_most_used_browser records = Raise (KeyError "browser")).
Proof.
  intros records. repeat split.
  - apply count_images_from_ok.
  - apply count_images_from_missing.
  - intros H. unfold find_most_used_browser.
    destruct (count_browsers_ok records initial_counts eq_refl H) as (counts & E & Hk).
    rewrite E. simpl.
    destruct (keys_tally _ Hk) as (a & b & c & d & ->). simpl. eauto.
  - intros H. unfold find_most_used_browser.
    now rewrite (count_browsers_missing records initial_counts eq_refl H).
Qed.

Lemma missing_field_raises_KeyError_witness :
  (exists n, count_images short_rows = Ok n) /\
  count_images (short_rows ++ [[]]) = Raise (KeyError "path") /\
  (exists w, find_most_used_browser [[("path", "/a.jpg"); ("datetime_accessed", "t");
                                      ("browser", "Chrome")]] = Ok w) /\
  find_most_used_browser short_rows = Raise (KeyError "browser").
Proof.
  split; [|split; [|split]].
  - apply (proj1 (missing_field_raises_KeyError short_rows)). reflexivity.
  - apply (proj1 (proj2 (missing_field_raises_KeyError (short_rows ++ [[]])))). reflexivity.
  - apply (proj1 (proj2 (proj2 (missing_field_raises_KeyError _)))). reflexivity.
  - apply (proj2 (proj2 (proj2 (missing_field_raises_KeyError short_rows)))). reflexivity.
Defined.

(** C2, as stated, fails: the record of a blank line has no [path] and
    [count_images] raises; the record of a two-column row has no
    [browser] and [find_most_used_browser] raises. *)
Lemma absent_fields_are_not_tolerated :
  count_images [[]] = Raise (KeyError "path") /\
  find_most_used_browser short_rows = Raise (KeyError "browser") /\
  ~ absent_fields_are_tolerated.
Proof.
  split; [reflexivity|]. split; [reflexivity|].
  intros H. destruct (H [[]]) as [[n Hn] _]. discriminate Hn.
Qed.

(* ------------------------------------------------------------------ *)
(** ** The image test *)

Lemma try_words_some {A : Type} (ic : bool) (words : list string) (s : string)
    (g : option string) (k : string -> option string -> option A) :
  is_some (try_words ic words s g k) =
  existsb (fun w => match strip ic w s with
                    | Some rest => is_some (k rest g)
                    | None => false
                    end) words.
Proof.
  induction words as [|w ws IH]; simpl; [reflexivity|].
  destruct (strip ic w s) as [rest|]; [|exact IH].
  destruct (k rest g); [reflexivity | exact IH].
Qed.

Lemma char_match_same_letter (p c : char) :
  modest p = true -> Re.char_match true p c = same_letter p c.
Proof.
  unfold modest. intros H.
  apply andb_true_iff in H. destruct H as [H Hs].
  apply andb_true_iff in H. destruct H as [Hu Hk].
  apply negb_true_iff in Hu, Hk, Hs.
  assert (Hlow : Re.lower p = p) by (unfold Re.lower; now rewrite Hu).
  unfold Re.char_match, Re.iscased. rewrite Hlow, Hu, orb_false_r. cbn [andb].
  unfold same_letter.
  destruct (Re.is_lower p) eqn:Hl.
  - unfold Re.casefix. rewrite Hs.
    destruct (char_eqb_spec p 105) as [->|Hne]; cbn [existsb].
    + unfold Re.lowers_to.
      change (Re.is_lower 105) with true. change (Re.is_lower 305) with false.
      change (Char.eqb 105 105) with true. change (Char.eqb 105 107) with false.
      change (Char.eqb 305 105) with false. change (Char.eqb 305 107) with false.
      change (105 - 32)%N with 73%N. cbn [andb orb].
      destruct (Char.eqb c 105), (Char.eqb c 73), (Char.eqb c 304), (Char.eqb c 305);
        reflexivity.
    + unfold Re.lowers_to. rewrite Hl, Hk.
      destruct (char_eqb_spec p 105) as [E|_]; [contradiction|].
      cbn [andb orb]. now rewrite !orb_false_r.
  - destruct (char_eqb_spec p 105) as [->|Hne]; [discriminate Hl|].
    cbn [andb orb]. rewrite !orb_false_r. unfold Char.eqb. apply N.eqb_sym.
Qed.

Lemma ci_equal_append (w x : string) :
  all_modest w = true ->
  forall s,
    ci_equal (w ++ x) s =
    match strip true w s with
    | Some rest => ci_equal x rest
    | None => false
    end.
Proof.
  induction w as [|p w IH]; intros Hw s; simpl; [reflexivity|].
  simpl in Hw. apply andb_true_iff in Hw. destruct Hw as [Hp Hw].
  destruct s as [|c s]; [reflexivity|].
  rewrite (char_match_same_letter p c Hp).
  destruct (same_letter p c); simpl; [now apply IH | reflexivity].
Qed.

Lemma at_end_ci (rest : string) :
  Re.at_end rest = ci_equal "" rest || ci_equal (String LF "") rest.
Proof.
  destruct rest as [|c [|d rest]]; try reflexivity.
  - cbn [Re.at_end ci_equal orb]. unfold same_letter.
    change (Re.is_lower LF) with false. change (Char.eqb LF 105) with false.
    cbn [andb orb]. now rewrite !orb_false_r, andb_true_r.
  - cbn [Re.at_end ci_equal orb]. now rewrite andb_false_r.
Qed.

Lemma match_here_cat {A : Type} ic r1 r2 s g (k : string -> option string -> option A) :
  Re.match_here ic (Re.Cat r1 r2) s g k =
  Re.match_here ic r1 s g (fun s1 g1 => Re.match_here ic r2 s1 g1 k).
Proof. reflexivity. Qed.

Lemma match_here_group {A : Type} ic r s g (k : string -> option string -> option A) :
  Re.match_here ic (Re.Group r) s g k =
  Re.match_here ic r s g
    (fun s1 _ => k s1 (Some (take (Str.length s - Str.length s1) s))).
Proof. reflexivity. Qed.

Lemma at_end_some (rest : string) (g : option string) :
  is_some (Re.match_here true Re.AtEnd rest g (fun _ g' => Some (Re.mkMatch g'))) =
  Re.at_end rest.
Proof. simpl. destruct (Re.at_end rest); reflexivity. Qed.

Lemma word_then_end (e s : string) :
  all_modest e = true ->
  match strip true e s with
  | Some rest => Re.at_end rest
  | None => false
  end = ci_equal e s || ci_equal (e ++ String LF "") s.
Proof.
  intros He. rewrite (ci_equal_append e (String LF "") He).
  replace (ci_equal e s) with (ci_equal (e ++ "") s) by now rewrite append_nil_r.
  rewrite (ci_equal_append e "" He).
  destruct (strip true e s) as [rest|]; [apply at_end_ci | reflexivity].
Qed.

(** A match of the image pattern at the front of [s]. *)
Lemma image_match_here (s : string) :
  is_some (Re.match_here true image_pattern s None (fun _ g => Some (Re.mkMatch g))) =
  existsb (fun e => ci_equal ("." ++ e) s || ci_equal ("." ++ e ++ String LF "") s)
          image_extensions.
Proof.
  unfold image_pattern. rewrite match_here_cat.
  destruct s as [|c s1]; [reflexivity|].
  assert (E : forall e x, ci_equal ("." ++ e ++ x) (String c s1) =
                          Re.char_match true (ord ".") c && ci_equal (e ++ x) s1)
    by (intros e x; now rewrite char_match_same_letter).
  assert (E0 : forall e, ci_equal ("." ++ e) (String c s1) =
                          Re.char_match true (ord ".") c && ci_equal e s1)
    by (intros e; now rewrite char_match_same_letter).
  unfold image_extensions.
  match goal with |- _ = existsb ?f _ => set (test := f) end.
  simpl existsb. subst test. cbv beta. rewrite !E, !E0.
  change (Re.match_here true (Re.Lit (ord ".")) (String c s1) None ?k)
    with (if Re.char_match true (ord ".") c then k s1 None else None).
  destruct (Re.char_match true (ord ".") c) eqn:Hdot; [|reflexivity].
  rewrite match_here_cat, match_here_group.
  rewrite match_alternation by discriminate. rewrite try_words_some.
  match goal with |- existsb ?f _ = _ => set (test := f) end.
  simpl existsb. subst test. cbv beta.
  rewrite !andb_true_l, <- !word_then_end by reflexivity.
  destruct (strip true "jpg" s1), (strip true "gif" s1), (strip true "png" s1);
    rewrite ?at_end_some; reflexivity.
Qed.

Lemma endswith_ci_cons (suffix : string) (c : char) (s : string) :
  endswith_ci suffix (String c s) = ci_equal suffix (String c s) || endswith_ci suffix s.
Proof. reflexivity. Qed.

Lemma existsb_endswith_cons (f g : string -> string) (words : list string)
    (c : char) (s : string) :
  existsb (fun e => endswith_ci (f e) (String c s) || endswith_ci (g e) (String c s)) words =
  existsb (fun e => ci_equal (f e) (String c s) || ci_equal (g e) (String c s)) words ||
  existsb (fun e => endswith_ci (f e) s || endswith_ci (g e) s) words.
Proof.
  induction words as [|w ws IH]; [reflexivity|].
  cbn [existsb]. rewrite IH, !endswith_ci_cons.
  generalize (ci_equal (f w) (String c s)), (ci_equal (g w) (String c s)),
    (endswith_ci (f w) s), (endswith_ci (g w) s),
    (existsb (fun e => ci_equal (f e) (String c s) || ci_equal (g e) (String c s)) ws),
    (existsb (fun e => endswith_ci (f e) s || endswith_ci (g e) s) ws).
  intros [] [] [] [] [] []; reflexivity.
Qed.

Lemma is_image_cons (c : char) (s : string) :
  is_image (String c s) =
  is_some (Re.match_here true image_pattern (String c s) None
             (fun _ g => Some (Re.mkMatch g))) || is_image s.
Proof.
  unfold is_image.
  change (Re.search true image_pattern (String c s))
    with (match Re.match_here true image_pattern (String c s) None
                  (fun _ g => Some (Re.mkMatch g)) with
          | Some m => Some m
          | None => Re.search true image_pattern s
          end).
  destruct (Re.match_here true image_pattern (String c s) None
              (fun _ g => Some (Re.mkMatch g))); reflexivity.
Qed.

Lemma is_image_image_ending (path : string) : is_image path = image_ending path.
Proof.
  induction path as [|c s IH]; [reflexivity|].
  rewrite is_image_cons, image_match_here, IH. unfold image_ending.
  symmetry.
  apply (existsb_endswith_cons (fun e => "." ++ e)%str
                               (fun e => "." ++ e ++ String LF "")%str).
Qed.

Lemma count_images_from_filter (records : list record) :
  forall acc n,
    count_images_from acc records = Ok n ->
    n = (acc + Z.of_nat (List.length (filter is_image_record records)))%Z.
Proof.
  induction records as [|r records IH]; intros acc n; simpl.
  - intros [= <-]. lia.
  - unfold Dict.getitem.
    destruct (Dict.get "path" r) as [path|] eqn:Hp; [|discriminate]. simpl bind.
    assert (Er : is_image_record r = image_ending path)
      by (unfold is_image_record; now rewrite Hp).
    rewrite is_image_image_ending, Er.
    destruct (image_ending path); intros H; apply IH in H; simpl List.length; lia.
Qed.

(** C4, as amended.  A record with a [path] counts as an image exactly
    when the path ends with a dot and one of jpg, gif, png, or with these
    followed by one final line feed ([$] also matches just before a line
    feed that ends the text).  The letters are compared as
    [re.IGNORECASE] compares them: each letter matches its lower-case and
    its upper-case form, and i also matches U+0130 and U+0131.  The count
    of a list of records that all have a [path] is the number of records
    whose path ends so.  [image.jpg] and [image.JPG] count, [image.jpgx]
    does not, and an extension met earlier in the path does not count. *)
Theorem image_test_is_suffix_test :
  (forall records : list record,
      forallb (has_field "path") records = true ->
      count_images records =
      Ok (Z.of_nat (List.length (filter is_image_record records)))) /\
  (forall (r : record) (path : string),
      Dict.get "path" r = Some path ->
      count_images [r] = Ok (if image_ending path then 1 else 0)%Z) /\
  is_image "image.jpg" = true /\
  is_image "image.JPG" = true /\
  is_image "image.jpgx" = false /\
  is_image "/a.jpg/index.html" = false /\
  is_image path_with_dotted_I = true /\
  is_image path_with_dotless_i = true.
Proof.
  split; [|split; [|repeat split; reflexivity]].
  - intros records H. unfold count_images.
    destruct (count_images_from_ok records 0%Z H) as [n E]. rewrite E.
    now rewrite (count_images_from_filter records 0%Z n E).
  - intros r path H. unfold count_images. simpl. unfold Dict.getitem. rewrite H.
    simpl. rewrite is_image_image_ending. now destruct (image_ending path).
Qed.

Lemma image_test_is_suffix_test_witness :
  count_images [[("path", "/pics/b.PNG")]; [("path", "/index.html")];
                [("path", path_with_newline)]] = Ok 2%Z /\
  count_images [[("path", path_with_dotted_I)]] = Ok 1%Z.
Proof.
  split.
  - apply (proj1 image_test_is_suffix_test
             [[("path", "/pics/b.PNG")]; [("path", "/index.html")];
              [("path", path_with_newline)]]).
    reflexivity.
  - apply (proj1 (proj2 image_test_is_suffix_test)
             [("path", path_with_dotted_I)] path_with_dotted_I).
    reflexivity.
Defined.

(** C4, as stated, fails: a path that ends with a line feed after the
    extension does not end with the extension, and is counted; so is a
    path whose extension is written with U+0131, which is not the letter
    i in either case. *)
Lemma image_iff_extension_suffix_fails :
  ends_with_image_extension path_with_newline = false /\
  count_images [[("path", path_with_newline)]] = Ok 1%Z /\
  ends_with_image_extension path_with_dotless_i = false /\
  count_images [[("path", path_with_dotless_i)]] = Ok 1%Z /\
  ~ image_iff_extension_suffix.
Proof.
  repeat (split; [reflexivity|]).
  intros H.
  specialize (H [("path", path_with_newline)] path_with_newline eq_refl).
  vm_compute in H. discriminate H.
Qed.

(* ------------------------------------------------------------------ *)
(** ** The reader on plain text *)

Import Csv.

Lemma split_commas_nonempty (s : string) : split_commas s <> [].
Proof.
  destruct s as [|c s]; simpl; [discriminate|].
  destruct (Char.eqb c COMMA); [discriminate|].
  destruct (split_commas s); discriminate.
Qed.

Lemma occurs_cons (x c : char) (s : string) :
  occurs x (String c s) = false -> Char.eqb c x = false /\ occurs x s = false.
Proof. simpl. now intros H%orb_false_iff. Qed.

Lemma process_chars_plain (body : string) :
  forall self,
    occurs LF body = false -> occurs CR body = false ->
    occurs DQUOTE body = false ->
    in_row self ->
    (N.of_nat (Str.length (field self) + Str.length body) <= field_limit)%N ->
    exists self',
      process_chars self body = Ok self' /\ in_row self' /\
      fields self' ++ [field self'] =
      fields self ++ prepend (field self) (split_commas body).
Proof.
  induction body as [|c body IH]; intros self Hlf Hcr Hdq Hin Hlen.
  - exists self. simpl. rewrite append_nil_r. auto.
  - apply occurs_cons in Hlf, Hcr, Hdq.
    destruct Hlf as [Hlf Hlf'], Hcr as [Hcr Hcr'], Hdq as [Hdq Hdq'].
    assert (Hroom : (field_limit <=? field_len self)%N = false).
    { apply N.leb_gt. unfold field_len, field_limit in *. simpl Str.length in Hlen. lia. }
    simpl process_chars. simpl split_commas.
    destruct (Char.eqb c COMMA) eqn:Hcomma.
    + (* a comma closes the field *)
      destruct (IH (set_state (parse_save_field self) START_FIELD)) as (self' & E & Hin' & F);
        auto.
      { left. split; reflexivity. }
      { simpl. simpl Str.length in Hlen. unfold field_limit in *. lia. }
      exists self'. split; [|split; [exact Hin'|]].
      * destruct Hin as [[Hs Hf]|Hs]; unfold parse_process_char; rewrite Hs;
          unfold start_field, is_newline; rewrite ?Hlf, ?Hcr, ?Hdq, ?Hcomma; simpl;
          [|exact E].
        replace (parse_save_field self) with (set_state (parse_save_field self) START_FIELD);
          [exact E|].
        unfold set_state, parse_save_field. simpl. now rewrite Hs.
      * rewrite F. simpl. rewrite append_nil_r, <- app_assoc. simpl.
        destruct (split_commas body) eqn:S; [now apply split_commas_nonempty in S|].
        reflexivity.
    + (* any other character goes to the field *)
      set (self1 := {| fields := fields self; state := IN_FIELD;
                       field := snoc (field self) c |}).
      destruct (IH self1) as (self' & E & Hin' & F); auto.
      { right. reflexivity. }
      { simpl. unfold snoc. rewrite length_append. simpl Str.length in *.
        unfold field_limit in *. lia. }
      exists self'. split; [|split; [exact Hin'|]].
      * destruct Hin as [[Hs Hf]|Hs]; unfold parse_process_char; rewrite Hs;
          unfold start_field, is_newline, parse_add_char;
          rewrite ?Hlf, ?Hcr, ?Hdq, ?Hcomma, Hroom; simpl; try rewrite Hs; exact E.
      * rewrite F. simpl. f_equal.
        destruct (split_commas body) eqn:S; [now apply split_commas_nonempty in S|].
        simpl. unfold snoc. now rewrite append_assoc.
Qed.

Lemma prepend_empty (l : list string) : l <> [] -> prepend "" l = l.
Proof. destruct l; [contradiction | reflexivity]. Qed.

Lemma first_char (c : char) :
  is_newline c = false ->
  parse_process_char parse_reset (Chr c) =
  parse_process_char (set_state parse_reset START_FIELD) (Chr c).
Proof.
  intros H. unfold parse_process_char. cbn [state parse_reset set_state].
  now rewrite H.
Qed.

Lemma process_chars_app (a b : string) :
  forall self,
    process_chars self (a ++ b) =
    bind (process_chars self a) (fun self' => process_chars self' b).
Proof.
  induction a as [|c a IH]; intros self; simpl; [reflexivity|].
  destruct (parse_process_char self (Chr c)); simpl; [apply IH | reflexivity].
Qed.

Lemma chomp_body (body : string) :
  occurs LF body = false ->
  chomp (body ++ String LF "") = body /\ chomp body = body.
Proof.
  induction body as [|c body IH]; intros H; [split; reflexivity|].
  apply occurs_cons in H. destruct H as [Hc H]. destruct (IH H) as [IH1 IH2].
  split.
  - change ((String c body ++ String LF "")%str)
      with (String c (body ++ String LF "")%str).
    simpl chomp. rewrite IH1. destruct body; reflexivity.
  - simpl chomp. destruct body as [|d body]; [now rewrite Hc|]. now rewrite IH2.
Qed.

(** A plain line is one row: the parser ends at [START_RECORD] with the
    fields of the line. *)
Lemma process_line_plain (line : string) :
  plain_line line ->
  process_line parse_reset line =
  Ok {| fields := fields_of_line line; state := START_RECORD; field := "" |}.
Proof.
  intros (body & Hshape & Hlf & Hcr & Hdq & Hlen).
  assert (Hfields : body <> "" -> fields_of_line line = split_commas body).
  { intros Hne. unfold fields_of_line. destruct (chomp_body body Hlf) as [C1 C2].
    destruct Hshape as [->|[-> _]]; rewrite ?C1, ?C2;
      (destruct body; [contradiction | reflexivity]). }
  destruct body as [|c body].
  - destruct Hshape as [->|[_ Hne]]; [reflexivity | contradiction].
  - specialize (Hfields ltac:(discriminate)). rewrite Hfields.
    pose proof Hlf as Hlf0. pose proof Hcr as Hcr0.
    apply occurs_cons in Hlf0, Hcr0. destruct Hlf0 as [Hlf0 _], Hcr0 as [Hcr0 _].
    set (start := set_state parse_reset START_FIELD).
    destruct (process_chars_plain (String c body) start) as (self' & E & Hin & F); auto.
    { left. split; reflexivity. }
    change (fields start ++ prepend (field start) (split_commas (String c body)))
      with (prepend "" (split_commas (String c body))) in F.
    rewrite prepend_empty in F by apply split_commas_nonempty. rewrite <- F.
    assert (Hfirst : forall rest,
               process_chars parse_reset (String c rest) =
               process_chars start (String c rest)).
    { intros rest. cbn [process_chars]. rewrite first_char; [reflexivity|].
      unfold is_newline. now rewrite Hlf0, Hcr0. }
    unfold process_line.
    destruct Hshape as [->|[-> _]].
    + change ((String c body ++ String LF "")%str)
        with (String c (body ++ String LF "")%str).
      rewrite Hfirst.
      change (String c (body ++ String LF "")%str)
        with ((String c body ++ String LF "")%str).
      rewrite process_chars_app, E. simpl bind.
      destruct Hin as [[Hs Hf]|Hs]; unfold parse_process_char; rewrite Hs; reflexivity.
    + rewrite Hfirst, E. simpl bind.
      destruct Hin as [[Hs Hf]|Hs]; unfold parse_process_char; rewrite Hs; reflexivity.
Qed.

Lemma reader_rows_plain (lines : list string) :
  Forall plain_line lines ->
  reader_rows parse_reset lines = Ok (map fields_of_line lines).
Proof.
  induction 1 as [|line lines Hline _ IH]; [reflexivity|].
  simpl. rewrite (process_line_plain line Hline). simpl. now rewrite IH.
Qed.

Lemma lines_shape (text : string) :
  occurs CR text = false -> occurs DQUOTE text = false ->
  Forall (fun line =>
            exists body,
              (line = (body ++ String LF "")%str \/ (line = body /\ body <> "")) /\
              occurs LF body = false /\ occurs CR body = false /\
              occurs DQUOTE body = false)
         (StringIO_lines text).
Proof.
  induction text as [|c text IH]; intros Hcr Hdq; [constructor|].
  apply occurs_cons in Hcr, Hdq. destruct Hcr as [Hc Hcr], Hdq as [Hd Hdq].
  specialize (IH Hcr Hdq). simpl.
  destruct (Char.eqb c LF) eqn:Hlf.
  - constructor; [|exact IH]. exists "". apply char_eqb_eq in Hlf. subst c. auto.
  - destruct (StringIO_lines text) as [|l ls].
    + constructor; [|constructor]. exists (String c ""). simpl. rewrite Hlf, Hc, Hd.
      repeat split; auto. right. split; [reflexivity | discriminate].
    + inversion IH as [|? ? (body & Hshape & B1 & B2 & B3) Hls]. subst.
      constructor; [|exact Hls]. exists (String c body). simpl. rewrite Hlf, Hc, Hd.
      repeat split; auto.
      destruct Hshape as [->|[-> _]]; [left; reflexivity | right; split; [reflexivity | discriminate]].
Qed.

Lemma plain_lines (text : string) :
  plain text = true -> Forall plain_line (StringIO_lines text).
Proof.
  unfold plain. intros H.
  apply andb_true_iff in H. destruct H as [H Hlen].
  apply andb_true_iff in H. destruct H as [Hdq Hcr].
  apply negb_true_iff in Hdq, Hcr.
  pose proof (lines_shape text Hcr Hdq) as Hs.
  rewrite forallb_forall in Hlen. rewrite Forall_forall in *.
  intros line Hin. destruct (Hs line Hin) as (body & Hshape & B1 & B2 & B3).
  exists body. repeat split; auto.
  specialize (Hlen line Hin). apply N.leb_le in Hlen.
  destruct Hshape as [->|[-> _]]; [|exact Hlen].
  rewrite length_append in Hlen. lia.
Qed.

Lemma read_csv_plain (text : string) :
  plain text = true ->
  read_csv text = Ok (map record_of_line (StringIO_lines text)).
Proof.
  intros H. unfold read_csv, reader.
  rewrite (reader_rows_plain _ (plain_lines text H)). simpl. now rewrite map_map.
Qed.

Lemma length_lines (text : string) :
  List.length (StringIO_lines text) = line_count text.
Proof.
  induction text as [|c text IH]; [reflexivity|]. simpl.
  destruct (Char.eqb c LF); simpl; [now rewrite IH|].
  destruct text as [|d text]; [reflexivity|].
  rewrite <- IH. destruct (StringIO_lines (String d text)) eqn:E; [|reflexivity].
  exfalso. simpl in E. destruct (Char.eqb d LF); [discriminate|].
  destruct (StringIO_lines text); discriminate.
Qed.

(* ------------------------------------------------------------------ *)
(** ** The records of the parser *)

Lemma of_pairs_columns (row : list string) :
  Dict.of_pairs (combine column_names row) = combine column_names row.
Proof.
  destruct row as [|f1 [|f2 [|f3 [|f4 [|f5 row]]]]]; reflexivity.
Qed.

Lemma record_empty_or_path (row : list string) :
  Dict.of_pairs (combine column_names row) = [] \/
  has_field "path" (Dict.of_pairs (combine column_names row)) = true.
Proof.
  rewrite of_pairs_columns. destruct row; [left | right]; reflexivity.
Qed.

Lemma record_of_line_blank (line : string) :
  (chomp line = "" -> record_of_line line = []) /\
  (chomp line <> "" -> has_field "path" (record_of_line line) = true).
Proof.
  unfold record_of_line, fields_of_line. rewrite of_pairs_columns.
  destruct (chomp line) as [|c body] eqn:E.
  - split; [reflexivity | contradiction].
  - split; [discriminate|]. intros _.
    destruct (split_commas (String c body)) eqn:S;
      [now apply split_commas_nonempty in S | reflexivity].
Qed.

(** C10, as amended.  Every record of the parser is either the empty
    record or has [path].  For a text without double quotes and carriage
    returns, whose lines are within the field size limit, the records
    follow the lines: a blank line yields the empty record, which has no
    [path], and every other line yields a record with [path]. *)
Theorem records_have_path_or_are_empty :
  forall text rs,
    read_csv text = Ok rs ->
    Forall (fun r => r = [] \/ has_field "path" r = true) rs /\
    (plain text = true ->
     Forall2 (fun line r =>
                (chomp line = "" -> r = []) /\
                (chomp line <> "" -> has_field "path" r = true))
             (StringIO_lines text) rs).
Proof.
  intros text rs H. split.
  - unfold read_csv in H. destruct (reader (StringIO_lines text)) as [rows|]; [|discriminate].
    simpl in H. injection H as <-. apply Forall_map, Forall_forall.
    intros row _. apply record_empty_or_path.
  - intros Hp. rewrite (read_csv_plain text Hp) in H. injection H as <-.
    induction (StringIO_lines text) as [|line lines IH]; simpl; constructor;
      [apply record_of_line_blank | exact IH].
Qed.

Lemma records_have_path_or_are_empty_witness :
  Forall2 (fun line r =>
             (chomp line = "" -> r = []) /\
             (chomp line <> "" -> has_field "path" r = true))
          (StringIO_lines row_and_blank_line)
          [[("path", "/a.jpg"); ("datetime_accessed", "2020-01-01")]; []].
Proof.
  refine (proj2 (records_have_path_or_are_empty row_and_blank_line
                   [[("path", "/a.jpg"); ("datetime_accessed", "2020-01-01")]; []] _) _);
    vm_compute; reflexivity.
Defined.

(** C10, as stated, fails: a blank line yields the empty record, and the
    image scan raises on it. *)
Lemma every_record_has_path_fails :
  read_csv row_and_blank_line =
    Ok [[("path", "/a.jpg"); ("datetime_accessed", "2020-01-01")]; []] /\
  bind (read_csv row_and_blank_line) count_images = Raise (KeyError "path") /\
  ~ every_record_has_path.
Proof.
  split; [vm_compute; reflexivity|]. split; [vm_compute; reflexivity|].
  intros H.
  assert (E : read_csv row_and_blank_line =
              Ok [[("path", "/a.jpg"); ("datetime_accessed", "2020-01-01")]; []])
    by (vm_compute; reflexivity).
  specialize (H row_and_blank_line _ E). discriminate H.
Qed.

(* ------------------------------------------------------------------ *)
(** ** The percentage *)

Lemma float_of_int_spec (n : Z) :
  (0 <= n < 2 ^ 63)%Z -> Prim2SF (float_of_int n) = binary64_of_int n.
Proof.
  intros H. unfold float_of_int, binary64_of_int.
  destruct (Z.ltb_spec n 0) as [Hneg|_]; [lia|].
  rewrite of_uint63_spec, Uint63.of_Z_spec.
  rewrite Z.mod_small; [reflexivity|].
  change Uint63.wB with (2 ^ 63)%Z. lia.
Qed.

(** *** Binary64 division of integers

    For two operands below [2^53] the division converts both to floats
    and divides those; otherwise it rounds the exact quotient.  The two
    ways agree: a float below [2^53] is the integer itself, its mantissa
    shifted to 53 digits, and the division of two such mantissas leaves
    the same quotient and the same place of the remainder. *)

Section Binary64.

Local Open Scope Z_scope.

Lemma digits2_bounds (p : positive) :
  2 ^ (Zpos (digits2_pos p) - 1) <= Zpos p < 2 ^ Zpos (digits2_pos p).
Proof.
  induction p as [p IH|p IH|]; cbn [digits2_pos].
  - rewrite Pos2Z.inj_succ. replace (Z.succ (Zpos (digits2_pos p)) - 1) with (Zpos (digits2_pos p)) by lia.
    rewrite Z.pow_succ_r by lia.
    replace (2 ^ Zpos (digits2_pos p)) with (2 * 2 ^ (Zpos (digits2_pos p) - 1)) in *
      by (rewrite <- Z.pow_succ_r by lia; f_equal; lia).
    lia.
  - rewrite Pos2Z.inj_succ. replace (Z.succ (Zpos (digits2_pos p)) - 1) with (Zpos (digits2_pos p)) by lia.
    rewrite Z.pow_succ_r by lia.
    replace (2 ^ Zpos (digits2_pos p)) with (2 * 2 ^ (Zpos (digits2_pos p) - 1)) in *
      by (rewrite <- Z.pow_succ_r by lia; f_equal; lia).
    lia.
  - simpl. lia.
Qed.

Lemma digits2_le (p : positive) (n : Z) :
  Zpos p < 2 ^ n -> Zpos (digits2_pos p) <= n.
Proof.
  intros H. destruct (Z.le_gt_cases (Zpos (digits2_pos p)) n) as [|Hgt]; [assumption|].
  exfalso. pose proof (digits2_bounds p) as [Hlo _].
  assert (0 <= n \/ n < 0) as [Hn|Hn] by lia.
  - assert (2 ^ n <= 2 ^ (Zpos (digits2_pos p) - 1)) by (apply Z.pow_le_mono_r; lia). lia.
  - rewrite Z.pow_neg_r in H by lia. lia.
Qed.

Lemma iter_xO (d p : positive) :
  Zpos (Pos.iter xO p d) = Zpos p * 2 ^ Zpos d /\
  digits2_pos (Pos.iter xO p d) = (digits2_pos p + d)%positive.
Proof.
  induction d as [|d [IH1 IH2]] using Pos.peano_ind.
  - simpl. split; [lia|]. now rewrite Pos.add_1_r.
  - rewrite Pos.iter_succ. split.
    + rewrite Pos2Z.inj_xO, IH1, Pos2Z.inj_succ, Z.pow_succ_r by lia. lia.
    + cbn [digits2_pos]. rewrite IH2. lia.
Qed.

Lemma shr_fexp_stay (m e : Z) (l : location) :
  fexp prec emax (Zdigits2 m + e) <= e ->
  shr_fexp prec emax m e l = (shr_record_of_loc m l, e).
Proof.
  intros H. unfold shr_fexp, shr.
  destruct (fexp prec emax (Zdigits2 m + e) - e) eqn:E; try reflexivity. lia.
Qed.

(** A mantissa of exactly 53 digits with an exponent in range is a
    binary64 number as it stands. *)
Lemma binary_round_aux_exact (m : positive) (e : Z) :
  digits2_pos m = 53%positive -> -1074 <= e <= 971 ->
  binary_round_aux prec emax false (Zpos m) e loc_Exact = S754_finite false m e.
Proof.
  intros Hd He. unfold binary_round_aux.
  assert (Hf : fexp prec emax (Zdigits2 (Zpos m) + e) <= e).
  { cbn [Zdigits2]. rewrite Hd. unfold fexp, SpecFloat.emin, prec, emax. lia. }
  rewrite shr_fexp_stay by exact Hf. cbn.
  rewrite shr_fexp_stay by exact Hf. cbn.
  destruct (Z.leb_spec e 971) as [_|Hbad]; [reflexivity|lia].
Qed.

(** The binary64 number of a positive integer below [2^53]: the integer
    itself, its mantissa shifted to 53 digits. *)
Lemma binary_round_small (a : positive) :
  Zpos a < 2 ^ 53 ->
  exists m : positive,
    binary_round prec emax false a 0 =
      S754_finite false m (Zpos (digits2_pos a) - 53) /\
    digits2_pos m = 53%positive /\
    Zpos m = Zpos a * 2 ^ (53 - Zpos (digits2_pos a)).
Proof.
  intros Ha. pose proof (digits2_le a 53 Ha) as Hd.
  unfold binary_round.
  assert (Hf : fexp prec emax (Zpos (digits2_pos a) + 0) = Zpos (digits2_pos a) - 53).
  { unfold fexp, SpecFloat.emin, prec, emax. lia. }
  rewrite Hf. unfold shl_align.
  destruct (Zpos (digits2_pos a) - 53 - 0) as [|d|d] eqn:E; [|lia|].
  - exists a. assert (Hda : digits2_pos a = 53%positive) by lia.
    replace (Zpos (digits2_pos a) - 53) with 0 by lia.
    replace (53 - Zpos (digits2_pos a)) with 0 by lia.
    split; [|split].
    + apply (binary_round_aux_exact a 0 Hda). lia.
    + exact Hda.
    + simpl. lia.
  - destruct (iter_xO d a) as [Hv Hdig].
    exists (Pos.iter xO a d).
    assert (Hk : Zpos d = 53 - Zpos (digits2_pos a)) by lia.
    split; [|split].
    + apply binary_round_aux_exact; [|lia]. rewrite Hdig. lia.
    + rewrite Hdig. lia.
    + rewrite Hv, Hk. reflexivity.
Qed.

Lemma div_eucl_div_mod (x y : Z) : Z.div_eucl x y = (x / y, x mod y).
Proof. unfold Z.div, Z.modulo. destruct (Z.div_eucl x y); reflexivity. Qed.

(** The place of a remainder within its divisor is that of both
    multiplied by the same power of two. *)
Lemma new_location_scale (b r : Z) (k : Z) :
  0 <= k -> 0 < b -> 0 <= r < b ->
  new_location (b * 2 ^ k) (r * 2 ^ k) = new_location b r.
Proof.
  intros Hk Hb Hr.
  assert (Hc : 0 < 2 ^ k) by (apply Z.pow_pos_nonneg; lia).
  destruct (Z.eq_dec k 0) as [->|Hk0].
  { now rewrite Z.pow_0_r, !Z.mul_1_r. }
  assert (Hce : Z.even (2 ^ k) = true).
  { replace k with (Z.succ (k - 1)) by lia. rewrite Z.pow_succ_r by lia.
    rewrite Z.even_mul. reflexivity. }
  unfold new_location.
  change IntDef.Z.even with Z.even.
  rewrite Z.even_mul, Hce, orb_true_r.
  unfold new_location_even, new_location_odd.
  change IntDef.Z.eqb with Z.eqb. change IntDef.Z.compare with Z.compare.
  change IntDef.Z.mul with Z.mul. change IntDef.Z.add with Z.add.
  assert (Hz : (r * 2 ^ k =? 0) = (r =? 0)).
  { destruct (Z.eqb_spec r 0) as [->|Hn]; [reflexivity|]. apply Z.eqb_neq. nia. }
  assert (Hcmp : (2 * (r * 2 ^ k) ?= b * 2 ^ k) = (2 * r ?= b)).
  { replace (2 * (r * 2 ^ k)) with (2 * r * 2 ^ k) by ring.
    destruct (Z.compare_spec (2 * r * 2 ^ k) (b * 2 ^ k));
      destruct (Z.compare_spec (2 * r) b); try reflexivity; nia. }
  rewrite Hz, Hcmp.
  destruct (Z.even b) eqn:Eb; cbv beta; [reflexivity|].
  destruct (Z.eqb_spec r 0) as [_|Hrn]; [reflexivity|].
  assert (Hodd : Z.odd b = true) by (rewrite <- Z.negb_even, Eb; reflexivity).
  apply Z.odd_spec in Hodd. destruct Hodd as [h Hh].
  f_equal.
  destruct (Z.compare_spec (2 * r) b) as [E|L|G];
    destruct (Z.compare_spec (2 * r + 1) b) as [E'|L'|G']; try reflexivity; lia.
Qed.

(** Dividing the two integers as binary64 numbers, mantissas shifted to
    53 digits, is dividing them as they are. *)
Lemma SFdiv_core_small (a b m1 m2 : positive) :
  Zpos a < 2 ^ 53 -> Zpos b < 2 ^ 53 ->
  digits2_pos m1 = 53%positive -> digits2_pos m2 = 53%positive ->
  Zpos m1 = Zpos a * 2 ^ (53 - Zpos (digits2_pos a)) ->
  Zpos m2 = Zpos b * 2 ^ (53 - Zpos (digits2_pos b)) ->
  SFdiv_core_binary prec emax (Zpos m1) (Zpos (digits2_pos a) - 53)
                              (Zpos m2) (Zpos (digits2_pos b) - 53) =
  SFdiv_core_binary prec emax (Zpos a) 0 (Zpos b) 0.
Proof.
  intros Ha Hb Hd1 Hd2 Hm1 Hm2.
  pose proof (digits2_le a 53 Ha) as Hda. pose proof (digits2_le b 53 Hb) as Hdb.
  set (da := Zpos (digits2_pos a)) in *. set (db := Zpos (digits2_pos b)) in *.
  assert (Hda1 : 1 <= da) by (subst da; lia).
  assert (Hdb1 : 1 <= db) by (subst db; lia).
  unfold SFdiv_core_binary. cbn [Zdigits2]. rewrite Hd1, Hd2.
  fold da db.
  change IntDef.Z.min with Z.min. change IntDef.Z.shiftl with Z.shiftl.
  change IntDef.Z.div_eucl with Z.div_eucl.
  assert (E1 : Z.min (fexp prec emax (53 + (da - 53) - (53 + (db - 53))))
                     (da - 53 - (db - 53)) = da - db - 53).
  { unfold fexp, SpecFloat.emin, prec, emax. lia. }
  assert (E2 : Z.min (fexp prec emax (da + 0 - (db + 0))) (0 - 0) = da - db - 53).
  { unfold fexp, SpecFloat.emin, prec, emax. lia. }
  rewrite E1, E2.
  replace (da - 53 - (db - 53) - (da - db - 53)) with 53 by lia.
  destruct (0 - 0 - (da - db - 53)) as [|s|s] eqn:Es; [lia| |lia].
  rewrite !Z.shiftl_mul_pow2 by lia.
  rewrite !div_eucl_div_mod.
  set (X := Zpos a * 2 ^ Zpos s).
  set (k := 53 - db) in *.
  assert (Hk : 0 <= k) by (subst k; lia).
  assert (Hc : 0 < 2 ^ k) by (apply Z.pow_pos_nonneg; lia).
  assert (HX : Zpos m1 * 2 ^ 53 = X * 2 ^ k).
  { rewrite Hm1. subst X k. rewrite <- !Z.mul_assoc, <- !Z.pow_add_r by lia.
    f_equal. f_equal. lia. }
  rewrite HX, Hm2.
  rewrite Z.div_mul_cancel_r by lia.
  rewrite Z.mul_mod_distr_r by lia.
  rewrite new_location_scale; [reflexivity|lia|lia|].
  apply Z.mod_pos_bound. lia.
Qed.

(** The binary64 quotient of two integers below [2^53], converted first,
    is their exact quotient rounded once. *)
Lemma SFdiv_small (s1 s2 : bool) (a b m1 m2 : positive) :
  Zpos a < 2 ^ 53 -> Zpos b < 2 ^ 53 ->
  digits2_pos m1 = 53%positive -> digits2_pos m2 = 53%positive ->
  Zpos m1 = Zpos a * 2 ^ (53 - Zpos (digits2_pos a)) ->
  Zpos m2 = Zpos b * 2 ^ (53 - Zpos (digits2_pos b)) ->
  SFdiv prec emax (S754_finite s1 m1 (Zpos (digits2_pos a) - 53))
                  (S754_finite s2 m2 (Zpos (digits2_pos b) - 53)) =
  SFdiv prec emax (S754_finite s1 a 0) (S754_finite s2 b 0).
Proof.
  intros Ha Hb Hd1 Hd2 Hm1 Hm2.
  unfold SFdiv. now rewrite (SFdiv_core_small a b m1 m2).
Qed.

Lemma shr_1_m_bounds (mrs : shr_record) :
  0 <= shr_m mrs -> 0 <= shr_m (shr_1 mrs) <= shr_m mrs.
Proof.
  destruct mrs as [m r s]. cbn [shr_m]. intros Hm.
  destruct m as [|[p|p|]|p]; cbn; lia.
Qed.

Lemma iter_shr_1_m_bounds (p : positive) (mrs : shr_record) :
  0 <= shr_m mrs -> 0 <= shr_m (iter_pos shr_1 p mrs) <= shr_m mrs.
Proof.
  revert mrs. induction p as [p IH|p IH|]; intros mrs Hm; cbn [iter_pos].
  - pose proof (shr_1_m_bounds mrs Hm) as H1.
    pose proof (IH (shr_1 mrs) (proj1 H1)) as H2.
    pose proof (IH _ (proj1 H2)) as H3. lia.
  - pose proof (IH mrs Hm) as H2.
    pose proof (IH _ (proj1 H2)) as H3. lia.
  - apply shr_1_m_bounds, Hm.
Qed.

Lemma shr_record_of_loc_m (m : Z) (l : location) :
  shr_m (shr_record_of_loc m l) = m.
Proof. destruct l as [|[]]; reflexivity. Qed.

(** What [shr_fexp] returns: a mantissa no larger, at the exponent that
    the format asks for. *)
Lemma shr_fexp_bounds (m e : Z) (l : location) :
  0 <= m ->
  0 <= shr_m (fst (shr_fexp prec emax m e l)) <= m /\
  snd (shr_fexp prec emax m e l) = Z.max e (fexp prec emax (Zdigits2 m + e)).
Proof.
  intros Hm. unfold shr_fexp, shr.
  destruct (fexp prec emax (Zdigits2 m + e) - e) as [|p|p] eqn:E; cbn [fst snd].
  - rewrite shr_record_of_loc_m. lia.
  - split; [|lia].
    rewrite <- (shr_record_of_loc_m m l) at 3.
    apply iter_shr_1_m_bounds. rewrite shr_record_of_loc_m. exact Hm.
  - rewrite shr_record_of_loc_m. lia.
Qed.

Lemma Zdigits2_le (m n : Z) : 0 <= m < 2 ^ n -> 0 <= n -> Zdigits2 m <= n.
Proof.
  intros [H0 H1] Hn. destruct m as [|p|p]; cbn [Zdigits2]; [assumption| |lia].
  apply digits2_le, H1.
Qed.

Lemma round_nearest_even_bounds (m : Z) (l : location) :
  m <= round_nearest_even m l <= m + 1.
Proof.
  unfold round_nearest_even. destruct l as [|[]]; try lia.
  destruct (IntDef.Z.even m); lia.
Qed.

(** A mantissa below [2^54] at an exponent below zero never rounds to
    an infinity. *)
Lemma binary_round_aux_finite (sx : bool) (m e : Z) (l : location) :
  0 <= m < 2 ^ 54 -> e <= 0 ->
  forall s, binary_round_aux prec emax sx m e l <> S754_infinity s.
Proof.
  intros Hm He s. unfold binary_round_aux.
  pose proof (shr_fexp_bounds m e l (proj1 Hm)) as [B1 E1].
  destruct (shr_fexp prec emax m e l) as [mrs' e'] eqn:S1. cbn [fst snd] in B1, E1.
  set (m2 := round_nearest_even (shr_m mrs') (loc_of_shr_record mrs')).
  pose proof (round_nearest_even_bounds (shr_m mrs') (loc_of_shr_record mrs')) as R.
  fold m2 in R.
  assert (Hm2 : 0 <= m2) by lia.
  pose proof (shr_fexp_bounds m2 e' loc_Exact Hm2) as [B2 E2].
  destruct (shr_fexp prec emax m2 e' loc_Exact) as [mrs'' e''] eqn:S2.
  cbn [fst snd] in B2, E2.
  assert (D1 : Zdigits2 m <= 54) by (apply Zdigits2_le; lia).
  assert (D2 : Zdigits2 m2 <= 55).
  { apply Zdigits2_le; [|lia]. split; [lia|].
    change (2 ^ 55) with (2 * 2 ^ 54). lia. }
  assert (He' : e' <= 1).
  { rewrite E1. unfold fexp, SpecFloat.emin, prec, emax. lia. }
  assert (He'' : e'' <= 971).
  { rewrite E2. unfold fexp, SpecFloat.emin, prec, emax. lia. }
  destruct (shr_m mrs'') as [|p|p]; try discriminate.
  destruct (Z.leb_spec e'' (emax - prec)) as [_|Hbad]; [discriminate|].
  unfold prec, emax in Hbad. lia.
Qed.

(** The exact quotient of two integers is never too large for a float
    when the dividend has at most 52 binary digits more than the
    divisor. *)
Lemma SFdiv_finite (s1 s2 : bool) (a b : positive) :
  Zpos (digits2_pos a) <= Zpos (digits2_pos b) + 52 ->
  forall s, SFdiv prec emax (S754_finite s1 a 0) (S754_finite s2 b 0)
            <> S754_infinity s.
Proof.
  intros Hd s. unfold SFdiv.
  pose proof (digits2_bounds a) as [_ Ua]. pose proof (digits2_bounds b) as [Lb _].
  unfold SFdiv_core_binary. cbn [Zdigits2].
  set (da := Zpos (digits2_pos a)) in *. set (db := Zpos (digits2_pos b)) in *.
  assert (Hda1 : 1 <= da) by (subst da; lia).
  assert (Hdb1 : 1 <= db) by (subst db; lia).
  change IntDef.Z.min with Z.min. change IntDef.Z.shiftl with Z.shiftl.
  change IntDef.Z.div_eucl with Z.div_eucl.
  assert (E2 : Z.min (fexp prec emax (da + 0 - (db + 0))) (0 - 0) =
               Z.max (da - db - 53) (-1074)).
  { unfold fexp, SpecFloat.emin, prec, emax. lia. }
  rewrite E2.
  destruct (0 - 0 - Z.max (da - db - 53) (-1074)) as [|k|k] eqn:Es; [lia| |lia].
  rewrite Z.shiftl_mul_pow2 by lia. rewrite div_eucl_div_mod.
  apply binary_round_aux_finite; [|lia].
  assert (Hp : 0 < 2 ^ Zpos k) by (apply Z.pow_pos_nonneg; lia).
  split; [apply Z.div_pos; lia|].
  apply Z.div_lt_upper_bound; [lia|].
  assert (Hle : 2 ^ (da + Zpos k) <= 2 ^ (db - 1 + 54))
    by (apply Z.pow_le_mono_r; lia).
  rewrite !Z.pow_add_r in Hle by lia.
  assert (Hpk : 0 < 2 ^ 54) by reflexivity.
  nia.
Qed.

Lemma SFdiv_small_finite (s1 s2 : bool) (a b : positive) :
  Zpos a < 2 ^ 53 -> Zpos b < 2 ^ 53 ->
  forall s, SFdiv prec emax (S754_finite s1 a 0) (S754_finite s2 b 0)
            <> S754_infinity s.
Proof.
  intros Ha Hb. apply SFdiv_finite.
  pose proof (digits2_le a 53 Ha). lia.
Qed.

(** The float of a small [int], as a floating-point datum. *)
Lemma float_of_int_small (n : Z) :
  Z.abs n < 2 ^ 53 ->
  Prim2SF (float_of_int n) =
  match n with
  | Z0 => S754_zero false
  | Zpos p => binary_round prec emax false p 0
  | Zneg p => SFopp (binary_round prec emax false p 0)
  end.
Proof.
  intros H. unfold float_of_int.
  assert (W : 2 ^ 53 < Uint63.wB) by reflexivity.
  destruct n as [|p|p]; cbn [Z.ltb Z.compare Z.opp].
  - reflexivity.
  - rewrite of_uint63_spec, Uint63.of_Z_spec, Z.mod_small by lia. reflexivity.
  - rewrite opp_spec, of_uint63_spec, Uint63.of_Z_spec, Z.mod_small by lia.
    reflexivity.
Qed.

(** The quotient of two [int]s, whichever way the division goes: the
    exact quotient rounded once to binary64, [OverflowError] when it
    is too large for a float. *)
Lemma int_truediv_exact (a b : Z) :
  b <> 0 ->
  int_truediv a b =
  match SFdiv prec emax (spec_of_int a) (spec_of_int b) with
  | S754_infinity _ => Raise OverflowError
  | q => Ok (SF2Prim q)
  end.
Proof.
  intros Hb. unfold int_truediv.
  destruct (Z.eqb_spec b 0) as [E|_]; [contradiction|].
  destruct (is_small a && is_small b) eqn:Hs; [|reflexivity].
  apply andb_prop in Hs. destruct Hs as [Sa Sb].
  unfold is_small in Sa, Sb. apply Z.ltb_lt in Sa, Sb.
  assert (Hq : Prim2SF (PrimFloat.div (float_of_int a) (float_of_int b)) =
               SFdiv prec emax (spec_of_int a) (spec_of_int b) /\
               forall s, SFdiv prec emax (spec_of_int a) (spec_of_int b)
                         <> S754_infinity s).
  { rewrite div_spec, !float_of_int_small by assumption.
    unfold SF64div.
    destruct b as [|pb|pb]; [contradiction| |];
      destruct (binary_round_small pb Sb) as (m2 & -> & Hd2 & Hm2);
      (destruct a as [|pa|pa];
       [ split; [reflexivity | discriminate]
       | destruct (binary_round_small pa Sa) as (m1 & -> & Hd1 & Hm1)
       | destruct (binary_round_small pa Sa) as (m1 & -> & Hd1 & Hm1) ]);
      cbn [SFopp spec_of_int negb];
      (split; [now apply SFdiv_small | now apply SFdiv_small_finite]). }
  destruct Hq as [Hq Hfin].
  rewrite <- (SF2Prim_Prim2SF (PrimFloat.div (float_of_int a) (float_of_int b))), Hq.
  destruct (SFdiv prec emax (spec_of_int a) (spec_of_int b)) eqn:Eq;
    try reflexivity.
  exfalso. exact (Hfin _ eq_refl).
Qed.

(** A count no larger than the total never overflows. *)
Lemma true_quotient_finite (a b : Z) :
  0 <= a <= b -> 0 < b -> forall s, true_quotient a b <> S754_infinity s.
Proof.
  intros Ha Hb s. unfold true_quotient.
  destruct b as [|pb|pb]; try lia.
  destruct a as [|pa|pa]; try lia; cbn [spec_of_int]; [discriminate|].
  apply SFdiv_finite.
  pose proof (digits2_bounds pb) as [_ Ub].
  assert (Zpos (digits2_pos pa) <= Zpos (digits2_pos pb)) by (apply digits2_le; lia).
  lia.
Qed.

End Binary64.

(** C5, as amended.  For every image count and every total other than
    zero, the percentage is the quotient of the two integers, rounded
    once to binary64, multiplied by 100 and rounded again; when that
    quotient is too large for a float, [OverflowError] is raised and
    nothing is returned.  For a count between zero and the total, as the
    program's counts are, the percentage is always returned.  For a
    count and a total below [2^53] it is also the result of the
    operations of IEEE 754 on the two counts as binary64 data.  The
    function does not test its divisor: with a total of zero the
    division raises [ZeroDivisionError]. *)
Theorem percentage_is_ieee_quotient_times_100 :
  (forall image_count total : Z,
      total <> 0%Z ->
      find_image_percentage image_count total =
      match true_quotient image_count total with
      | S754_infinity _ => Raise OverflowError
      | q => Ok (PrimFloat.mul (SF2Prim q) 100%float)
      end) /\
  (forall image_count total : Z,
      (0 <= image_count <= total)%Z -> (0 < total)%Z ->
      exists p, find_image_percentage image_count total = Ok p) /\
  (forall image_count total : Z,
      (0 <= image_count < 2 ^ 53)%Z -> (0 < total < 2 ^ 53)%Z ->
      exists p,
        find_image_percentage image_count total = Ok p /\
        Prim2SF p = ieee_percentage image_count total) /\
  (forall image_count : Z,
      find_image_percentage image_count 0 = Raise ZeroDivisionError).
Proof.
  assert (H1 : forall image_count total : Z,
      total <> 0%Z ->
      find_image_percentage image_count total =
      match true_quotient image_count total with
      | S754_infinity _ => Raise OverflowError
      | q => Ok (PrimFloat.mul (SF2Prim q) 100%float)
      end).
  { intros ic total Hn. unfold find_image_percentage, true_quotient.
    rewrite int_truediv_exact by exact Hn.
    destruct (SFdiv prec emax (spec_of_int ic) (spec_of_int total)); reflexivity. }
  split; [exact H1|]. split; [|split].
  - intros ic total Hi Ht. rewrite H1 by lia.
    pose proof (true_quotient_finite ic total Hi Ht) as Hfin.
    destruct (true_quotient ic total) eqn:E; try (eexists; reflexivity).
    exfalso. exact (Hfin _ eq_refl).
  - intros ic total Hi Ht.
    unfold find_image_percentage, int_truediv, is_small.
    destruct (Z.eqb_spec total 0) as [E|_]; [lia|].
    assert (S1 : (Z.abs ic <? 2 ^ 53)%Z = true) by (apply Z.ltb_lt; lia).
    assert (S2 : (Z.abs total <? 2 ^ 53)%Z = true) by (apply Z.ltb_lt; lia).
    rewrite S1, S2. cbn [andb bind]. eexists. split; [reflexivity|].
    rewrite mul_spec, div_spec, !float_of_int_spec by lia. reflexivity.
  - intros ic. reflexivity.
Qed.

Lemma percentage_is_ieee_quotient_times_100_witness :
  find_image_percentage 2 3 =
    match true_quotient 2 3 with
    | S754_infinity _ => Raise OverflowError
    | q => Ok (PrimFloat.mul (SF2Prim q) 100%float)
    end /\
  find_image_percentage (2 ^ 53 + 1) 3 =
    match true_quotient (2 ^ 53 + 1) 3 with
    | S754_infinity _ => Raise OverflowError
    | q => Ok (PrimFloat.mul (SF2Prim q) 100%float)
    end /\
  (exists p, find_image_percentage (2 ^ 64) (2 ^ 65) = Ok p) /\
  (exists p, find_image_percentage 2 3 = Ok p /\ Prim2SF p = ieee_percentage 2 3).
Proof.
  split; [|split; [|split]].
  - apply (proj1 percentage_is_ieee_quotient_times_100 2%Z 3%Z). discriminate.
  - apply (proj1 percentage_is_ieee_quotient_times_100 (2 ^ 53 + 1)%Z 3%Z).
    discriminate.
  - apply (proj1 (proj2 percentage_is_ieee_quotient_times_100) (2 ^ 64)%Z (2 ^ 65)%Z).
    + split; vm_compute; discriminate.
    + reflexivity.
  - apply (proj1 (proj2 (proj2 percentage_is_ieee_quotient_times_100)) 2%Z 3%Z); lia.
Defined.

(** C5, as stated, fails: a count too large for its quotient to be a
    float is answered with [OverflowError]. *)
Lemma percentage_always_returned_fails :
  find_image_percentage (2 ^ 1024) 1 = Raise OverflowError /\
  ~ percentage_always_returned.
Proof.
  split; [vm_compute; reflexivity|].
  intros H. destruct (H (2 ^ 1024)%Z 1%Z) as [p Hp]; [lia | lia |].
  vm_compute in Hp. discriminate Hp.
Qed.

(* ------------------------------------------------------------------ *)
(** ** The end-to-end example *)

(** C8.  On the example log the analysis finds 3 rows and 2 images,
    counts Firefox twice and Chrome once and reports Firefox.  The
    percentage is 66.67 to two decimals, as [main] prints it: it is the
    binary64 number [(2 / 3) * 100], hexadecimal 0x1.0aaaaaaaaaaaap+6. *)
Theorem example_log_report :
  analyse example_log =
    Ok {| total_rows := 3; image_count := 2;
          image_percentage := 0x1.0aaaaaaaaaaaap+6%float;
          browser_count := "Firefox" |} /\
  bind (read_csv example_log) (count_browsers initial_counts) = Ok (tally 2 1 0 0) /\
  format_2f 0x1.0aaaaaaaaaaaap+6%float = Some 6667%Z.
Proof.
  repeat split; vm_compute; reflexivity.
Qed.

(* ================================================================== *)
(** * Further properties of the program *)

(** ** Counting *)

(** X1.  When [count_images] returns, its result is the number of
    records whose path passes the image test; it lies between zero and
    the number of records. *)
Theorem image_count_is_filter_length :
  forall records n,
    count_images records = Ok n ->
    n = Z.of_nat (List.length (filter is_image_record records)) /\
    (0 <= n <= len records)%Z.
Proof.
  intros records n H. apply count_images_from_filter in H. simpl in H.
  split; [exact H|]. unfold len.
  pose proof (filter_length_le is_image_record records). lia.
Qed.

Lemma image_count_is_filter_length_witness :
  2%Z = Z.of_nat (List.length (filter is_image_record
          [[("path", "/a.GIF")]; [("path", "/b.html")]; [("path", "/c.png")]])) /\
  (0 <= 2 <= len [[("path", "/a.GIF")]; [("path", "/b.html")]; [("path", "/c.png")]])%Z.
Proof.
  apply (image_count_is_filter_length
           [[("path", "/a.GIF")]; [("path", "/b.html")]; [("path", "/c.png")]] 2%Z).
  reflexivity.
Defined.

(** [count_images] over two batches. *)
Lemma count_images_from_app (a b : list record) :
  forall acc,
    count_images_from acc (a ++ b) =
    bind (count_images_from acc a) (fun n => count_images_from n b).
Proof.
  induction a as [|r a IH]; intros acc; simpl; [reflexivity|].
  destruct (Dict.getitem r "path"); simpl; [apply IH | reflexivity].
Qed.

Lemma set_total (k : string) (v v0 : Z) (d : Dict.t Z) :
  Dict.get k d = Some v0 ->
  tally_total (Dict.set k v d) = (tally_total d - v0 + v)%Z.
Proof.
  unfold tally_total.
  induction d as [|[k' v'] d IH]; simpl; [discriminate|].
  destruct (Str.eqb k' k); simpl.
  - intros [= ->]. lia.
  - intros H. rewrite (IH H). lia.
Qed.

Lemma leftmost_none_inv (words : list string) :
  forall s w, leftmost words s = None -> In w words -> contains w s = false.
Proof.
  induction s as [|c s IH]; intros w; simpl.
  - destruct (find (fun w0 => startswith w0 "") words) eqn:F; [discriminate|].
    intros _ Hw. apply find_none with (x := w) in F; [|exact Hw].
    unfold contains. simpl. now rewrite F.
  - destruct (find (fun w0 => startswith w0 (String c s)) words) eqn:F; [discriminate|].
    intros H Hw. apply find_none with (x := w) in F; [|exact Hw].
    specialize (IH w H Hw). unfold contains in *.
    rewrite str_find_next by exact F.
    destruct (str_find w s); [discriminate | reflexivity].
Qed.

Lemma leftmost_names (s : string) :
  is_some (leftmost browser_types s) =
  existsb (fun w => contains w s) browser_types.
Proof.
  destruct (leftmost browser_types s) as [w|] eqn:E; simpl is_some.
  - symmetry. apply existsb_exists.
    destruct (existsb (fun w0 => contains w0 s) browser_types) eqn:X.
    + now apply existsb_exists in X.
    + exfalso. rewrite leftmost_none in E; [discriminate|].
      intros w' Hw'.
      destruct (contains w' s) eqn:C; [|reflexivity].
      assert (existsb (fun w0 => contains w0 s) browser_types = true)
        by (apply existsb_exists; now exists w').
      congruence.
  - symmetry. apply not_true_is_false. intros X. apply existsb_exists in X.
    destruct X as (w & Hw & C). rewrite (leftmost_none_inv _ _ _ E Hw) in C. discriminate.
Qed.

Lemma count_browser_total (counts counts' : Dict.t Z) (r : record) :
  count_browser counts r = Ok counts' ->
  tally_total counts' =
  (tally_total counts + (if names_a_browser r then 1 else 0))%Z.
Proof.
  unfold names_a_browser.
  destruct (Dict.get "browser" r) as [browser|] eqn:Hb.
  - rewrite (count_browser_found _ _ _ Hb), <- leftmost_names.
    destruct (leftmost browser_types browser) as [w|]; simpl is_some.
    + unfold increment, Dict.getitem.
      destruct (Dict.get w counts) as [v|] eqn:Hv; [|discriminate]. simpl.
      intros [= <-]. rewrite (set_total _ _ _ _ Hv). lia.
    + intros [= <-]. lia.
  - now rewrite count_browser_missing.
Qed.

Lemma count_browsers_total (records : list record) :
  forall counts counts',
    count_browsers counts records = Ok counts' ->
    tally_total counts' =
    (tally_total counts + Z.of_nat (List.length (filter names_a_browser records)))%Z.
Proof.
  induction records as [|r records IH]; intros counts counts'; simpl.
  - intros [= <-]. lia.
  - destruct (count_browser counts r) as [c1|] eqn:E; [|discriminate]. simpl.
    intros H. apply IH in H. apply count_browser_total in E.
    destruct (names_a_browser r); simpl List.length in *; lia.
Qed.

(** X2.  The counts of the final tally add up to the number of records
    whose [browser] text holds at least one identifier: every such
    record is counted once, and no other record is counted. *)
Theorem tally_total_is_number_of_matches :
  forall records counts,
    count_browsers initial_counts records = Ok counts ->
    tally_total counts = Z.of_nat (List.length (filter names_a_browser records)).
Proof.
  intros records counts H. apply count_browsers_total in H. exact H.
Qed.

Lemma tally_total_is_number_of_matches_witness :
  tally_total (tally 2 2 0 0) =
  Z.of_nat (List.length (filter names_a_browser tied_records)).
Proof.
  apply (tally_total_is_number_of_matches tied_records (tally 2 2 0 0)). reflexivity.
Defined.

(* ------------------------------------------------------------------ *)
(** ** The browser reported *)

Lemma max_by_value_in_keys (d : Dict.t Z) (w : string) :
  max_by_value d = Ok w -> In w (Dict.keys d).
Proof.
  intros H. destruct d as [|kv d]; [discriminate|].
  destruct (max_by_value_first_maximum (kv :: d)) as (w' & n & pre & post & E & Hd & _);
    [discriminate|].
  rewrite H in E. injection E as <-. rewrite Hd. unfold Dict.keys.
  rewrite map_app. apply in_or_app. right. now left.
Qed.

(** X3.  A browser returned by [find_most_used_browser] is one of the
    four identifiers of the fixed list. *)
Theorem most_used_browser_is_listed :
  forall records w,
    find_most_used_browser records = Ok w -> In w browser_types.
Proof.
  intros records w. unfold find_most_used_browser.
  destruct (count_browsers initial_counts records) as [counts|] eqn:E; [|discriminate].
  simpl. intros H. apply max_by_value_in_keys in H.
  now rewrite (count_browsers_keys records initial_counts counts eq_refl E) in H.
Qed.

Lemma most_used_browser_is_listed_witness : In "Firefox" browser_types.
Proof.
  apply (most_used_browser_is_listed tied_records "Firefox"). reflexivity.
Defined.

Lemma count_browsers_unmatched (records : list record) :
  forall counts,
    forallb (has_field "browser") records = true ->
    filter names_a_browser records = [] ->
    count_browsers counts records = Ok counts.
Proof.
  induction records as [|r records IH]; intros counts Hb Hn; [reflexivity|].
  simpl in Hb. apply andb_true_iff in Hb. destruct Hb as [Hr Hb].
  simpl in Hn. unfold has_field in Hr.
  destruct (Dict.get "browser" r) as [browser|] eqn:Hg; [|discriminate].
  assert (En : names_a_browser r = is_some (leftmost browser_types browser))
    by (unfold names_a_browser; now rewrite Hg, leftmost_names).
  rewrite En in Hn. simpl. rewrite (count_browser_found _ _ _ Hg).
  destruct (leftmost browser_types browser); simpl in Hn; [discriminate|].
  simpl. now apply IH.
Qed.

(** X4.  When every record has a [browser] text and none of the texts
    holds an identifier, the tally stays all zero and the function still
    names a browser: Firefox, the first of the list.  This covers the
    empty list of records. *)
Theorem no_match_reports_Firefox :
  forall records,
    forallb (has_field "browser") records = true ->
    filter names_a_browser records = [] ->
    find_most_used_browser records = Ok "Firefox".
Proof.
  intros records Hb Hn. unfold find_most_used_browser.
  now rewrite (count_browsers_unmatched records initial_counts Hb Hn).
Qed.

Lemma no_match_reports_Firefox_witness :
  find_most_used_browser
    [[("browser", "Opera 12")]; [("browser", "curl/7.64 safari")]] = Ok "Firefox".
Proof.
  apply (no_match_reports_Firefox
           [[("browser", "Opera 12")]; [("browser", "curl/7.64 safari")]]);
    reflexivity.
Defined.

(* ------------------------------------------------------------------ *)
(** ** The exceptions of the analysis *)

Lemma parse_add_char_error (self : ReaderObj) (c : char) (e : exn) :
  parse_add_char self c = Raise e -> exists msg, e = CsvError msg.
Proof.
  unfold parse_add_char. destruct (field_limit <=? field_len self)%N; [|discriminate].
  intros [= <-]. eauto.
Qed.

Lemma parse_process_char_error (self : ReaderObj) (i : input) (e : exn) :
  parse_process_char self i = Raise e -> exists msg, e = CsvError msg.
Proof.
  unfold parse_process_char, start_field.
  destruct (state self), i as [c|];
    repeat match goal with
           | |- context [if ?b then _ else _] => destruct b
           end;
    try discriminate;
    try (intros [= <-]; eauto);
    try (destruct (parse_add_char self c) eqn:E; simpl;
         [discriminate | intros [= <-]; exact (parse_add_char_error _ _ _ E)]);
    try (destruct (parse_add_char (set_state self START_FIELD) c) eqn:E; simpl;
         [discriminate | intros [= <-]; exact (parse_add_char_error _ _ _ E)]);
    try (intros E; exact (parse_add_char_error _ _ _ E)).
Qed.

Lemma process_chars_error (line : string) :
  forall self e, process_chars self line = Raise e -> exists msg, e = CsvError msg.
Proof.
  induction line as [|c line IH]; intros self e; simpl; [discriminate|].
  destruct (parse_process_char self (Chr c)) as [self'|e'] eqn:E; simpl.
  - apply IH.
  - intros [= <-]. exact (parse_process_char_error _ _ _ E).
Qed.

Lemma process_line_error (self : ReaderObj) (line : string) (e : exn) :
  process_line self line = Raise e -> exists msg, e = CsvError msg.
Proof.
  unfold process_line.
  destruct (process_chars self line) as [self'|e'] eqn:E; simpl.
  - apply parse_process_char_error.
  - intros [= <-]. exact (process_chars_error _ _ _ E).
Qed.

Lemma reader_rows_error (lines : list string) :
  forall self e, reader_rows self lines = Raise e -> exists msg, e = CsvError msg.
Proof.
  induction lines as [|line lines IH]; intros self e; simpl.
  - destruct (negb (field_len self =? 0)%N || state_eqb (state self) IN_QUOTED_FIELD);
      discriminate.
  - destruct (process_line self line) as [self'|e'] eqn:E; simpl.
    + destruct (state_eqb (state self') START_RECORD); [|apply IH].
      destruct (reader_rows parse_reset lines) as [rows|e'] eqn:R; simpl; [discriminate|].
      intros [= <-]. exact (IH _ _ R).
    + intros [= <-]. exact (process_line_error _ _ _ E).
Qed.

(** After the end-of-line mark the parser is between two records or
    inside a quoted field. *)
Lemma state_after_EOL (self self' : ReaderObj) :
  parse_process_char self EOL = Ok self' ->
  state self' = START_RECORD \/ state self' = IN_QUOTED_FIELD.
Proof.
  unfold parse_process_char, start_field.
  destruct (state self) eqn:S; cbv beta iota; intros H; injection H as <-; simpl; auto.
Qed.

Lemma reader_rows_cons (self : ReaderObj) (line : string) (rest : list string) :
  reader_rows self (line :: rest) =
  bind (process_line self line)
       (fun self' =>
          if state_eqb (state self') START_RECORD
          then bind (reader_rows parse_reset rest) (fun rows => Ok (fields self' :: rows))
          else reader_rows self' rest).
Proof. reflexivity. Qed.

Lemma reader_rows_nonempty (lines : list string) :
  forall self line rows,
    reader_rows self (line :: lines) = Ok rows -> rows <> [].
Proof.
  induction lines as [|l lines IH]; intros self line rows; rewrite reader_rows_cons;
    destruct (process_line self line) as [self'|] eqn:E; try discriminate; cbn [bind].
  - unfold process_line in E.
    destruct (process_chars self line) as [s1|]; [|discriminate]. simpl in E.
    destruct (state_after_EOL _ _ E) as [S|S]; rewrite S; simpl; rewrite ?S; simpl.
    + intros H; injection H as <-. discriminate.
    + rewrite orb_true_r. intros H; injection H as <-. discriminate.
  - destruct (state_eqb (state self') START_RECORD).
    + destruct (reader_rows parse_reset (l :: lines)); cbn [bind]; [|discriminate].
      intros H; injection H as <-. discriminate.
    + apply IH.
Qed.

Lemma lines_empty (text : string) : StringIO_lines text = [] -> text = "".
Proof.
  destruct text as [|c text]; [reflexivity|]. simpl.
  destruct (Char.eqb c LF); [discriminate|].
  destruct (StringIO_lines text); discriminate.
Qed.

Lemma read_csv_error (text : string) (e : exn) :
  read_csv text = Raise e -> exists msg, e = CsvError msg.
Proof.
  unfold read_csv, reader.
  destruct (reader_rows parse_reset (StringIO_lines text)) eqn:R; [discriminate|].
  simpl. intros [= <-]. exact (reader_rows_error _ _ _ R).
Qed.

Lemma read_csv_nonempty (text : string) (rs : list record) :
  text <> "" -> read_csv text = Ok rs -> rs <> [].
Proof.
  intros Hne. unfold read_csv, reader.
  destruct (StringIO_lines text) as [|line lines] eqn:L;
    [now apply lines_empty in L|].
  destruct (reader_rows parse_reset (line :: lines)) as [rows|] eqn:R; [|discriminate].
  simpl. intros [= <-]. apply reader_rows_nonempty in R.
  destruct rows; [contradiction | discriminate].
Qed.

Lemma count_images_error (records : list record) (e : exn) :
  count_images records = Raise e -> e = KeyError "path".
Proof.
  unfold count_images. intros H.
  destruct (forallb (has_field "path") records) eqn:F.
  - destruct (count_images_from_ok records 0%Z F) as [n E]. congruence.
  - rewrite (count_images_from_missing records 0%Z F) in H. congruence.
Qed.

Lemma find_most_used_browser_error (records : list record) (e : exn) :
  find_most_used_browser records = Raise e -> e = KeyError "browser".
Proof.
  unfold find_most_used_browser. intros H.
  destruct (forallb (has_field "browser") records) eqn:F.
  - destruct (count_browsers_ok records initial_counts eq_refl F) as (counts & E & K).
    rewrite E in H. simpl in H.
    destruct (keys_tally _ K) as (a & b & c & d & ->). discriminate H.
  - rewrite (count_browsers_missing records initial_counts eq_refl F) in H.
    simpl in H. congruence.
Qed.

Lemma int_truediv_nonzero (a b : Z) :
  b <> 0%Z -> int_truediv a b <> Raise ZeroDivisionError.
Proof.
  intros Hb. unfold int_truediv. destruct (Z.eqb_spec b 0); [contradiction|].
  destruct (is_small a && is_small b); [discriminate|].
  destruct (SFdiv prec emax (spec_of_int a) (spec_of_int b)); discriminate.
Qed.

(** X5.  The analysis of [main] ends in [ZeroDivisionError] exactly when
    the downloaded text is empty: the empty text gives no record and the
    percentage is computed all the same, and any other text either
    fails earlier with another exception or gives at least one record. *)
Theorem analysis_divides_by_zero_iff_empty :
  forall text, analyse text = Raise ZeroDivisionError <-> text = "".
Proof.
  intros text. split; [|intros ->; reflexivity].
  intros H. destruct (string_dec text "") as [E|Hne]; [exact E|]. exfalso.
  unfold analyse in H.
  destruct (read_csv text) as [rs|e] eqn:R.
  - simpl in H. pose proof (read_csv_nonempty text rs Hne R) as Hrs.
    destruct (count_images rs) as [n|e] eqn:C.
    + simpl in H.
      destruct (find_image_percentage n (len rs)) as [p|e] eqn:P.
      * simpl in H.
        destruct (find_most_used_browser rs) as [w|e] eqn:B; [discriminate|].
        simpl in H. apply find_most_used_browser_error in B. congruence.
      * simpl in H. injection H as ->. unfold find_image_percentage in P.
        destruct (int_truediv n (len rs)) as [q|e] eqn:D; [discriminate|].
        simpl in P. injection P as ->.
        apply (int_truediv_nonzero n (len rs)); [|exact D].
        unfold len. destruct rs; [contradiction | simpl; lia].
    + simpl in H. apply count_images_error in C. congruence.
  - simpl in H. apply read_csv_error in R. destruct R as [msg ->]. discriminate.
Qed.

(* ------------------------------------------------------------------ *)
(** ** Rows the reader rejects, and quoted fields *)

Lemma lines_head (c : char) (rest : string) :
  Char.eqb c LF = false ->
  exists l ls, StringIO_lines (String c rest) = String c l :: ls.
Proof.
  intros H. simpl. rewrite H.
  destruct (StringIO_lines rest) as [|l ls]; [now exists "", [] | now exists l, ls].
Qed.

Lemma lines_prepend (pre : string) :
  forall x l ls,
    occurs LF pre = false ->
    StringIO_lines x = l :: ls ->
    StringIO_lines (pre ++ x) = (pre ++ l)%str :: ls.
Proof.
  induction pre as [|c pre IH]; intros x l ls Hlf Hx; [exact Hx|].
  apply occurs_cons in Hlf. destruct Hlf as [Hc Hlf].
  simpl. rewrite Hc, (IH x l ls Hlf Hx). reflexivity.
Qed.

Lemma reader_rows_raises (self : ReaderObj) (line : string) (rest : list string)
    (e : exn) :
  process_chars self line = Raise e ->
  reader_rows self (line :: rest) = Raise e.
Proof.
  intros H. rewrite reader_rows_cons. unfold process_line. now rewrite H.
Qed.

(** The unquoted part of a row up to a character [c], read from the
    start of a record. *)
Lemma process_chars_plain_start (body : string) :
  occurs LF body = false -> occurs CR body = false ->
  occurs DQUOTE body = false ->
  (N.of_nat (Str.length body) <= field_limit)%N ->
  body <> "" ->
  exists self', process_chars parse_reset body = Ok self' /\ in_row self'.
Proof.
  intros Hlf Hcr Hdq Hlen Hne.
  destruct body as [|c body]; [contradiction|].
  pose proof Hlf as Hlf0. pose proof Hcr as Hcr0.
  apply occurs_cons in Hlf0, Hcr0. destruct Hlf0 as [Hlf0 _], Hcr0 as [Hcr0 _].
  destruct (process_chars_plain (String c body) (set_state parse_reset START_FIELD))
    as (self' & E & Hin & _); auto.
  { left. split; reflexivity. }
  exists self'. split; [|exact Hin].
  cbn [process_chars]. rewrite first_char; [exact E|].
  unfold is_newline. now rewrite Hlf0, Hcr0.
Qed.

(** X6.  A carriage return that is followed by an ordinary character in
    an unquoted row makes the reader raise, and [read_csv] with it: the
    parse is abandoned and no record is returned. *)
Theorem bare_carriage_return_raises :
  forall (pre : string) (c : char) (rest : string),
    occurs LF pre = false -> occurs CR pre = false ->
    occurs DQUOTE pre = false ->
    (N.of_nat (Str.length pre) <= field_limit)%N ->
    is_newline c = false ->
    read_csv (pre ++ String CR (String c rest)) =
    Raise (CsvError "new-line character seen in unquoted field - do you need to open the file in universal-newline mode?").
Proof.
  intros pre c rest Hlf Hcr Hdq Hlen Hc.
  assert (Hc' : Char.eqb c LF = false)
    by (unfold is_newline in Hc; now apply orb_false_iff in Hc).
  destruct (lines_head c rest Hc') as (l & ls & L).
  assert (L2 : StringIO_lines (String CR (String c rest)) = String CR (String c l) :: ls).
  { change (StringIO_lines (String CR (String c rest)))
      with (match StringIO_lines (String c rest) with
            | [] => [String CR ""]
            | l0 :: ls0 => String CR l0 :: ls0
            end).
    now rewrite L. }
  unfold read_csv, reader.
  rewrite (lines_prepend pre _ _ _ Hlf L2).
  rewrite (reader_rows_raises _ _ _ (CsvError "new-line character seen in unquoted field - do you need to open the file in universal-newline mode?"));
    [reflexivity|].
  rewrite process_chars_app.
  destruct (string_dec pre "") as [->|Hne].
  - cbn [process_chars bind]. unfold parse_process_char at 1. cbn [state parse_reset].
    change (is_newline CR) with true. cbv iota. cbn [bind process_chars].
    unfold parse_process_char. cbn [state set_state]. now rewrite Hc.
  - destruct (process_chars_plain_start pre Hlf Hcr Hdq Hlen Hne) as (self' & E & Hin).
    rewrite E. cbn [bind process_chars].
    destruct Hin as [[S F]|S]; unfold parse_process_char at 1; rewrite S;
      unfold start_field; change (is_newline CR) with true; cbv iota;
      cbn [bind process_chars]; unfold parse_process_char;
      cbn [state set_state parse_save_field]; now rewrite Hc.
Qed.

Lemma bare_carriage_return_raises_witness :
  read_csv ("/a.jpg,2020" ++ String CR (String (ord "x") ",Chrome")) =
  Raise (CsvError "new-line character seen in unquoted field - do you need to open the file in universal-newline mode?").
Proof.
  apply (bare_carriage_return_raises "/a.jpg,2020" (ord "x") ",Chrome");
    first [reflexivity | vm_compute; discriminate].
Defined.

Lemma process_chars_quoted (s : string) :
  forall self,
    state self = IN_QUOTED_FIELD ->
    occurs DQUOTE s = false ->
    (N.of_nat (Str.length (field self) + Str.length s) <= field_limit)%N ->
    process_chars self s =
    Ok {| fields := fields self; state := IN_QUOTED_FIELD;
          field := (field self ++ s)%str |}.
Proof.
  induction s as [|c s IH]; intros self S Hdq Hlen.
  - simpl. rewrite append_nil_r. destruct self; simpl in *. now subst.
  - apply occurs_cons in Hdq. destruct Hdq as [Hc Hdq].
    cbn [process_chars]. unfold parse_process_char. rewrite S, Hc.
    unfold parse_add_char.
    assert (Hroom : (field_limit <=? field_len self)%N = false).
    { apply N.leb_gt. unfold field_len, field_limit in *. simpl Str.length in Hlen. lia. }
    rewrite Hroom, S. cbn [bind]. rewrite IH; cbn [state field fields]; auto.
    + unfold snoc. now rewrite append_assoc.
    + unfold snoc. rewrite length_append. simpl Str.length in *.
      unfold field_limit in *. lia.
Qed.

Lemma lines_single (body : string) :
  occurs LF body = false ->
  StringIO_lines (body ++ String LF "") = [(body ++ String LF "")%str].
Proof.
  intros H. rewrite (lines_prepend body (String LF "") (String LF "") []);
    [reflexivity | exact H | reflexivity].
Qed.

(** X7.  A field written between double quotes is taken as it stands:
    commas and carriage returns inside the quotes belong to the field,
    and the quotes themselves do not.  A row made of one such field
    gives the record whose [path] is the text between the quotes. *)
Theorem quoted_field_is_verbatim :
  forall s : string,
    occurs DQUOTE s = false -> occurs LF s = false ->
    (N.of_nat (Str.length s) <= field_limit)%N ->
    read_csv (String DQUOTE (s ++ String DQUOTE (String LF ""))) =
    Ok [[("path", s)]].
Proof.
  intros s Hdq Hlf Hlen.
  unfold read_csv, reader.
  change (String DQUOTE (s ++ String DQUOTE (String LF "")))%str
    with (String DQUOTE (s ++ String DQUOTE "" ++ String LF ""))%str.
  rewrite <- append_assoc.
  change (String DQUOTE ((s ++ String DQUOTE "") ++ String LF ""))%str
    with ((String DQUOTE (s ++ String DQUOTE "")) ++ String LF "")%str.
  rewrite lines_single.
  2:{ simpl. assert (H : occurs LF (s ++ String DQUOTE "") = false).
      { clear - Hlf. induction s as [|c s IH]; [reflexivity|].
        apply occurs_cons in Hlf. destruct Hlf as [Hc Hlf]. simpl.
        now rewrite Hc, IH. }
      now rewrite H. }
  rewrite reader_rows_cons. unfold process_line.
  change ((String DQUOTE (s ++ String DQUOTE "") ++ String LF "")%str)
    with (String DQUOTE ((s ++ String DQUOTE "") ++ String LF ""))%str.
  rewrite append_assoc.
  cbn [process_chars]. unfold parse_process_char at 1. cbn [state parse_reset].
  change (is_newline DQUOTE) with false. cbv iota.
  unfold start_field. change (is_newline DQUOTE) with false.
  change (Char.eqb DQUOTE DQUOTE) with true. cbv iota. cbn [bind].
  rewrite process_chars_app, process_chars_quoted; auto.
Qed.

Lemma quoted_field_is_verbatim_witness :
  read_csv (String DQUOTE ("/a,b.jpg" ++ String DQUOTE (String LF ""))) =
  Ok [[("path", "/a,b.jpg")]].
Proof.
  apply (quoted_field_is_verbatim "/a,b.jpg");
    first [reflexivity | vm_compute; discriminate].
Defined.

(* ------------------------------------------------------------------ *)
(** ** When the analysis succeeds *)

Lemma record_of_line_full (line : string) :
  (3 <=? List.length (fields_of_line line))%nat = true ->
  has_field "path" (record_of_line line) = true /\
  has_field "browser" (record_of_line line) = true.
Proof.
  unfold record_of_line. rewrite of_pairs_columns.
  destruct (fields_of_line line) as [|f1 [|f2 [|f3 [|f4 [|f5 row]]]]];
    simpl; intros H; try discriminate H; split; reflexivity.
Qed.

Lemma forallb_map {A B : Type} (f : A -> B) (p : B -> bool) (l : list A) :
  forallb p (map f l) = forallb (fun x => p (f x)) l.
Proof. induction l as [|x l IH]; simpl; [reflexivity | now rewrite IH]. Qed.

(** X8.  For a text that is not empty, has no double quote and no
    carriage return, keeps its lines within the field size limit and has
    at least three columns on every line, the analysis of [main] raises
    nothing: the number of rows is the number of lines, the image count
    lies between zero and the number of rows, and the browser reported is
    one of the four identifiers. *)
Theorem analysis_succeeds_on_full_rows :
  forall text,
    text <> "" ->
    plain text = true ->
    forallb (fun line => (3 <=? List.length (fields_of_line line))%nat)
            (StringIO_lines text) = true ->
    (Z.of_nat (line_count text) < 2 ^ 53)%Z ->
    exists r,
      analyse text = Ok r /\
      total_rows r = Z.of_nat (line_count text) /\
      (0 <= image_count r <= total_rows r)%Z /\
      In (browser_count r) browser_types.
Proof.
  intros text Hne Hp Hfull Hsmall.
  set (rs := map record_of_line (StringIO_lines text)).
  assert (Hlen : len rs = Z.of_nat (line_count text))
    by (unfold len, rs; now rewrite length_map, length_lines).
  assert (Hpos : (0 < len rs)%Z).
  { rewrite Hlen, <- length_lines.
    destruct (StringIO_lines text) eqn:L; [now apply lines_empty in L | simpl; lia]. }
  assert (Hpath : forallb (has_field "path") rs = true).
  { unfold rs. rewrite forallb_map. rewrite forallb_forall in *.
    intros line Hin. now apply record_of_line_full, Hfull. }
  assert (Hbrowser : forallb (has_field "browser") rs = true).
  { unfold rs. rewrite forallb_map. rewrite forallb_forall in *.
    intros line Hin. now apply record_of_line_full, Hfull. }
  destruct (count_images_from_ok rs 0%Z Hpath) as [n Hn].
  pose proof (count_images_from_filter rs 0%Z n Hn) as Hcount.
  pose proof (filter_length_le is_image_record rs) as Hle.
  assert (Hbound : (0 <= n <= len rs)%Z) by (unfold len; lia).
  destruct (count_browsers_ok rs initial_counts eq_refl Hbrowser) as (counts & Hc & Hk).
  destruct (keys_tally counts Hk) as (a & b & c & d & Ht).
  destruct (max_by_value counts) as [w|] eqn:Hw; [|subst counts; discriminate Hw].
  exists (mkReport (len rs) n
            (PrimFloat.mul (PrimFloat.div (float_of_int n) (float_of_int (len rs)))
                           (float_of_int 100)) w).
  split; [|split; [exact Hlen | split; [exact Hbound|]]].
  - unfold analyse. rewrite (read_csv_plain text Hp). fold rs. cbn [bind].
    fold (count_images rs) in Hn. rewrite Hn. cbn [bind].
    unfold find_image_percentage, int_truediv, is_small.
    destruct (Z.eqb_spec (len rs) 0) as [E|_]; [lia|].
    assert (H1 : (Z.abs n <? 2 ^ 53)%Z = true) by (apply Z.ltb_lt; lia).
    assert (H2 : (Z.abs (len rs) <? 2 ^ 53)%Z = true) by (apply Z.ltb_lt; lia).
    rewrite H1, H2. cbn [andb bind].
    unfold find_most_used_browser. rewrite Hc. cbn [bind]. rewrite Hw. reflexivity.
  - cbn [browser_count]. rewrite <- Hk. now apply max_by_value_in_keys.
Qed.

Lemma analysis_succeeds_on_full_rows_witness :
  exists r,
    analyse example_log = Ok r /\
    total_rows r = Z.of_nat (line_count example_log) /\
    (0 <= image_count r <= total_rows r)%Z /\
    In (browser_count r) browser_types.
Proof.
  apply (analysis_succeeds_on_full_rows example_log).
  - discriminate.
  - vm_compute. reflexivity.
  - vm_compute. reflexivity.
  - vm_compute. reflexivity.
Defined.

(* ------------------------------------------------------------------ *)
(** ** The field size limit *)

Lemma process_chars_overlong (body : string) :
  forall self,
    occurs LF body = false -> occurs CR body = false ->
    occurs DQUOTE body = false -> occurs COMMA body = false ->
    in_row self ->
    (N.of_nat (Str.length (field self)) <= field_limit)%N ->
    (field_limit < N.of_nat (Str.length (field self) + Str.length body))%N ->
    process_chars self body =
    Raise (CsvError "field larger than field limit (131072)").
Proof.
  induction body as [|c body IH]; intros self Hlf Hcr Hdq Hco Hin Hfit Hlong.
  - simpl in Hlong. rewrite Nat.add_0_r in Hlong. lia.
  - apply occurs_cons in Hlf, Hcr, Hdq, Hco.
    destruct Hlf as [Hlf Hlf'], Hcr as [Hcr Hcr'], Hdq as [Hdq Hdq'], Hco as [Hco Hco'].
    cbn [process_chars].
    assert (Hstep : parse_process_char self (Chr c) =
                    bind (parse_add_char self c) (fun s => Ok (set_state s IN_FIELD))).
    { destruct Hin as [[S F]|S]; unfold parse_process_char; rewrite S;
        unfold start_field, is_newline; rewrite ?Hlf, ?Hcr, ?Hdq, ?Hco; cbn [orb];
        [reflexivity|].
      unfold parse_add_char. destruct (field_limit <=? field_len self)%N; [reflexivity|].
      cbn [bind]. unfold set_state. cbn [fields state field]. now rewrite S. }
    rewrite Hstep. unfold parse_add_char.
    destruct (field_limit <=? field_len self)%N eqn:Hroom; [reflexivity|].
    cbn [bind]. apply N.leb_gt in Hroom. unfold field_len in Hroom.
    apply IH; auto.
    + right. reflexivity.
    + cbn [field set_state]. unfold snoc. rewrite length_append. simpl Str.length.
      unfold field_limit in *. lia.
    + cbn [field set_state]. unfold snoc. rewrite length_append.
      simpl Str.length in *. unfold field_limit in *.
      replace (Str.length (field self) + 1 + Str.length body)
        with (Str.length (field self) + S (Str.length body)) by lia.
      exact Hlong.
Qed.

Lemma lines_unterminated (body : string) :
  occurs LF body = false -> body <> "" -> StringIO_lines body = [body].
Proof.
  induction body as [|c body IH]; intros Hlf Hne; [contradiction|].
  apply occurs_cons in Hlf. destruct Hlf as [Hc Hlf]. simpl. rewrite Hc.
  destruct body as [|d body]; [reflexivity|].
  rewrite IH; [reflexivity | exact Hlf | discriminate].
Qed.

(** X9.  A field of more than 131072 characters makes the reader raise,
    and [read_csv] with it: a text that is one unquoted field longer
    than the field size limit gives no record. *)
Theorem overlong_field_raises :
  forall body : string,
    occurs LF body = false -> occurs CR body = false ->
    occurs DQUOTE body = false -> occurs COMMA body = false ->
    (field_limit < N.of_nat (Str.length body))%N ->
    read_csv body = Raise (CsvError "field larger than field limit (131072)").
Proof.
  intros body Hlf Hcr Hdq Hco Hlong.
  destruct body as [|c body]; [vm_compute in Hlong; discriminate|].
  unfold read_csv, reader. rewrite lines_unterminated by (auto; discriminate).
  rewrite (reader_rows_raises _ _ _
             (CsvError "field larger than field limit (131072)")); [reflexivity|].
  pose proof Hlf as Hlf0. pose proof Hcr as Hcr0.
  apply occurs_cons in Hlf0, Hcr0. destruct Hlf0 as [Hlf0 _], Hcr0 as [Hcr0 _].
  cbn [process_chars]. rewrite first_char by (unfold is_newline; now rewrite Hlf0, Hcr0).
  change (bind (parse_process_char (set_state parse_reset START_FIELD) (Chr c))
               (fun self' => process_chars self' body))
    with (process_chars (set_state parse_reset START_FIELD) (String c body)).
  apply process_chars_overlong; auto.
  - left. split; reflexivity.
  - vm_compute. discriminate.
Qed.

Lemma overlong_field_raises_witness :
  read_csv overlong_field =
  Raise (CsvError "field larger than field limit (131072)").
Proof.
  apply (overlong_field_raises overlong_field); vm_compute; reflexivity.
Defined.

(* ------------------------------------------------------------------ *)
(** ** What each count of the tally is *)

Lemma get_set {V : Type} (k k' : string) (v : V) (d : Dict.t V) :
  Dict.get k (Dict.set k' v d) = if Str.eqb k' k then Some v else Dict.get k d.
Proof.
  induction d as [|[k0 v0] d IH]; simpl.
  - destruct (Str.eqb k' k); reflexivity.
  - destruct (string_eqb_spec k0 k') as [->|Hne]; simpl.
    + destruct (Str.eqb k' k); reflexivity.
    + rewrite IH. destruct (string_eqb_spec k0 k) as [->|Hne'].
      * destruct (string_eqb_spec k' k) as [->|_]; [contradiction | reflexivity].
      * reflexivity.
Qed.

Lemma count_browsers_seen (records : list record) :
  forall counts counts' w v,
    count_browsers counts records = Ok counts' ->
    Dict.get w counts = Some v ->
    Dict.get w counts' = Some (v + seen w records)%Z.
Proof.
  induction records as [|r records IH]; intros counts counts' w v; simpl.
  - intros [= <-] H. rewrite H. unfold seen. simpl. f_equal. lia.
  - destruct (count_browser counts r) as [c1|] eqn:E; [|discriminate]. cbn [bind].
    intros Hrest Hv. unfold seen. cbn [filter].
    unfold count_browser, Dict.getitem in E. unfold detected at 1.
    destruct (Dict.get "browser" r) as [browser|]; [|discriminate]. cbn [bind] in E.
    unfold browser_pattern in E. rewrite search_words in E by discriminate.
    destruct (leftmost browser_types browser) as [w0|]; cbn [option_map Re.group1] in E.
    + unfold increment, Dict.getitem in E.
      destruct (Dict.get w0 counts) as [v0|] eqn:H0; [|discriminate]. cbn [bind] in E.
      injection E as <-.
      destruct (string_eqb_spec w0 w) as [->|Hne].
      * rewrite (IH _ _ w (v0 + 1)%Z Hrest); [|now rewrite get_set, string_eqb_refl].
        rewrite Hv in H0. injection H0 as <-. unfold seen. f_equal.
        cbn [List.length]. lia.
      * rewrite (IH _ _ w v Hrest); [reflexivity|].
        rewrite get_set. destruct (string_eqb_spec w0 w); [contradiction | exact Hv].
    + injection E as <-. now rewrite (IH _ _ w v Hrest Hv).
Qed.

(** X10.  In the final tally the count of an identifier is the number of
    records in which that identifier is the one found, so the tally does
    not depend on the order of the records. *)
Theorem tally_counts_detections :
  forall records counts w,
    count_browsers initial_counts records = Ok counts ->
    In w browser_types ->
    Dict.get w counts = Some (seen w records).
Proof.
  intros records counts w H Hw.
  rewrite (count_browsers_seen records initial_counts counts w 0%Z H); [reflexivity|].
  simpl in Hw. destruct Hw as [<-|[<-|[<-|[<-|[]]]]]; reflexivity.
Qed.

Lemma tally_counts_detections_witness :
  Dict.get "Chrome" (tally 2 2 0 0) = Some (seen "Chrome" tied_records).
Proof.
  apply (tally_counts_detections tied_records (tally 2 2 0 0) "Chrome").
  - reflexivity.
  - simpl. auto.
Defined.

(* ------------------------------------------------------------------ *)
(** ** Counting over two batches *)

Lemma count_images_from_shift (records : list record) :
  forall acc n,
    count_images_from 0 records = Ok n ->
    count_images_from acc records = Ok (acc + n)%Z.
Proof.
  intros acc n H.
  destruct (forallb (has_field "path") records) eqn:F.
  - destruct (count_images_from_ok records acc F) as [m E]. rewrite E. f_equal.
    apply count_images_from_filter in E, H. lia.
  - rewrite (count_images_from_missing records 0%Z F) in H. discriminate.
Qed.

(** X11.  Counting the images of two batches of records one after the
    other gives the sum of the two counts. *)
Theorem count_images_app :
  forall (a b : list record) (n m : Z),
    count_images a = Ok n ->
    count_images b = Ok m ->
    count_images (a ++ b) = Ok (n + m)%Z.
Proof.
  intros a b n m Ha Hb. unfold count_images in *.
  rewrite count_images_from_app, Ha. cbn [bind].
  now apply count_images_from_shift.
Qed.

Lemma count_images_app_witness :
  count_images ([[("path", "/a.gif")]; [("path", "/b.txt")]] ++ [[("path", "/c.JPG")]]) =
  Ok (1 + 1)%Z.
Proof.
  apply (count_images_app [[("path", "/a.gif")]; [("path", "/b.txt")]]
                          [[("path", "/c.JPG")]] 1 1); reflexivity.
Defined.

(* ------------------------------------------------------------------ *)
(** ** Lines that close, and tidy lines *)

Lemma rstrip_split (s : string) :
  exists tail, s = (rstrip_eol s ++ tail)%str /\ all_newline tail = true.
Proof.
  induction s as [|c s (tail & E & Hn)]; [now exists ""|].
  simpl. destruct (rstrip_eol s) as [|d r] eqn:R.
  - simpl in E. subst s. destruct (is_newline c) eqn:Hc.
    + exists (String c tail). split; [reflexivity|]. simpl. now rewrite Hc.
    + now exists tail.
  - exists tail. split; [|exact Hn]. simpl. now rewrite E at 1.
Qed.

Lemma eat_newlines (tail : string) :
  forall self,
    state self = EAT_CRNL -> all_newline tail = true ->
    process_chars self tail = Ok self.
Proof.
  induction tail as [|c tail IH]; intros self S H; [reflexivity|].
  simpl in H. apply andb_true_iff in H. destruct H as [Hc H].
  cbn [process_chars]. unfold parse_process_char. rewrite S, Hc. cbn [bind].
  now apply IH.
Qed.

(** The end of a line, after the last field. *)
Lemma process_line_end (tail : string) (self : ReaderObj) :
  within_row self -> all_newline tail = true ->
  bind (process_chars self tail) (fun s => parse_process_char s EOL) =
  Ok {| fields := fields self ++ [field self]; state := START_RECORD; field := "" |}.
Proof.
  intros Hin Hn. destruct tail as [|c tail].
  - cbn [process_chars bind].
    destruct Hin as [[S F]|[S F]]; unfold parse_process_char; rewrite S; reflexivity.
  - simpl in Hn. apply andb_true_iff in Hn. destruct Hn as [Hc Hn].
    cbn [process_chars].
    assert (E : parse_process_char self (Chr c) =
                Ok (set_state (parse_save_field self) EAT_CRNL)).
    { destruct Hin as [[S F]|[S F]]; unfold parse_process_char; rewrite S;
        unfold start_field; now rewrite Hc. }
    rewrite E. cbn [bind]. rewrite eat_newlines; [reflexivity | reflexivity | exact Hn].
Qed.

Lemma process_chars_bare (body : string) :
  forall self,
    occurs LF body = false -> occurs CR body = false ->
    within_row self ->
    forallb bare_field (prepend (field self) (split_commas body)) = true ->
    exists self',
      process_chars self body = Ok self' /\ within_row self' /\
      fields self' ++ [field self'] =
      fields self ++ prepend (field self) (split_commas body).
Proof.
  induction body as [|c body IH]; intros self Hlf Hcr Hin Hbare.
  - exists self. simpl. rewrite append_nil_r. auto.
  - apply occurs_cons in Hlf, Hcr.
    destruct Hlf as [Hlf Hlf'], Hcr as [Hcr Hcr'].
    cbn [process_chars]. simpl split_commas in *.
    destruct (Char.eqb c COMMA) eqn:Hcomma.
    + (* a comma closes the field *)
      assert (Hq : Char.eqb c DQUOTE = false)
        by (apply char_eqb_eq in Hcomma; now subst c).
      simpl in Hbare. apply andb_true_iff in Hbare. destruct Hbare as [_ Hbare].
      destruct (IH (set_state (parse_save_field self) START_FIELD))
        as (self' & E & Hin' & F); auto.
      { left. split; reflexivity. }
      { cbn [field set_state parse_save_field].
        now rewrite prepend_empty by apply split_commas_nonempty. }
      exists self'. split; [|split; [exact Hin'|]].
      * destruct Hin as [[S Fe]|[S Fe]]; unfold parse_process_char; rewrite S;
          unfold start_field, is_newline; rewrite ?Hlf, ?Hcr, ?Hq, ?Hcomma; simpl;
          [|exact E].
        replace (parse_save_field self) with (set_state (parse_save_field self) START_FIELD);
          [exact E|].
        unfold set_state, parse_save_field. simpl. now rewrite S.
      * rewrite F. simpl. rewrite append_nil_r, <- app_assoc. simpl.
        destruct (split_commas body) eqn:Sp; [now apply split_commas_nonempty in Sp|].
        reflexivity.
    + (* any other character goes to the field *)
      destruct (split_commas body) as [|f fs] eqn:Sp;
        [now apply split_commas_nonempty in Sp|].
      cbn [prepend] in Hbare. cbn [forallb] in Hbare.
      apply andb_true_iff in Hbare. destruct Hbare as [Hf Hfs].
      unfold bare_field in Hf. apply andb_true_iff in Hf. destruct Hf as [Hnq Hlen].
      apply negb_true_iff in Hnq. apply N.leb_le in Hlen.
      rewrite length_append in Hlen. simpl Str.length in Hlen.
      assert (Hroom : (field_limit <=? field_len self)%N = false).
      { apply N.leb_gt. unfold field_len, field_limit in *. lia. }
      set (self1 := {| fields := fields self; state := IN_FIELD;
                       field := snoc (field self) c |}).
      assert (Estep : parse_process_char self (Chr c) = Ok self1).
      { destruct Hin as [[S Fe]|[S Fe]]; unfold parse_process_char; rewrite S;
          unfold start_field, is_newline, parse_add_char;
          rewrite ?Hlf, ?Hcr, ?Hcomma, Hroom; cbn [orb].
        - rewrite Fe in Hnq. simpl in Hnq. rewrite Hnq. reflexivity.
        - cbn [bind]. unfold self1. now rewrite S. }
      destruct (IH self1) as (self' & E & Hin' & F); auto.
      { right. split; [reflexivity|]. unfold self1, snoc. cbn [field].
        destruct (field self); discriminate. }
      { cbn [prepend forallb field self1]. unfold snoc.
        rewrite append_assoc. cbn [Str.append].
        rewrite Hfs, andb_true_r. unfold bare_field.
        rewrite Hnq. cbn [negb andb]. apply N.leb_le.
        rewrite length_append. simpl Str.length. exact Hlen. }
      exists self'. split; [|split; [exact Hin'|]].
      * rewrite Estep. exact E.
      * rewrite F. cbn [prepend field fields self1]. unfold snoc.
        now rewrite append_assoc.
Qed.

(** A tidy line is one row: the reader ends at [START_RECORD] with the
    fields of the line. *)
Lemma process_line_tidy (line : string) :
  tidy_line line = true ->
  process_line parse_reset line =
  Ok {| fields := fields_of_row line; state := START_RECORD; field := "" |}.
Proof.
  unfold tidy_line, fields_of_row. intros H.
  apply andb_true_iff in H. destruct H as [H Hbare].
  apply andb_true_iff in H. destruct H as [Hcr Hlf].
  apply negb_true_iff in Hcr, Hlf.
  destruct (rstrip_split line) as (tail & E & Hn).
  destruct (rstrip_eol line) as [|c body] eqn:R.
  - (* a blank line *)
    simpl in E. subst tail. unfold process_line.
    destruct line as [|d line]; [reflexivity|].
    simpl in Hn. apply andb_true_iff in Hn. destruct Hn as [Hd Hn].
    cbn [process_chars]. unfold parse_process_char at 1. cbn [state parse_reset].
    rewrite Hd. cbn [bind].
    rewrite eat_newlines; [reflexivity | reflexivity | exact Hn].
  - pose proof Hlf as Hlf0. pose proof Hcr as Hcr0.
    apply occurs_cons in Hlf0, Hcr0. destruct Hlf0 as [Hlf0 _], Hcr0 as [Hcr0 _].
    set (start := set_state parse_reset START_FIELD).
    destruct (process_chars_bare (String c body) start) as (self' & P & Hin & F); auto.
    { left. split; reflexivity. }
    { cbn [field start set_state parse_reset].
      now rewrite prepend_empty by apply split_commas_nonempty. }
    change (fields start ++ prepend (field start) (split_commas (String c body)))
      with (prepend "" (split_commas (String c body))) in F.
    rewrite prepend_empty in F by apply split_commas_nonempty. rewrite <- F.
    unfold process_line. rewrite E.
    assert (Hfirst : process_chars parse_reset (String c body ++ tail)%str =
                     process_chars start (String c body ++ tail)%str).
    { change ((String c body ++ tail)%str) with (String c (body ++ tail)%str).
      cbn [process_chars].
      now rewrite first_char by (unfold is_newline; now rewrite Hlf0, Hcr0). }
    rewrite Hfirst, process_chars_app, P. cbn [bind].
    now apply process_line_end.
Qed.

Lemma tidy_line_closes (line : string) :
  tidy_line line = true ->
  line_closes line = true /\ row_of_line line = fields_of_row line.
Proof.
  intros H. unfold line_closes, row_of_line.
  rewrite (process_line_tidy line H). split; reflexivity.
Qed.

Lemma reader_rows_closed (lines : list string) :
  forallb line_closes lines = true ->
  reader_rows parse_reset lines = Ok (map row_of_line lines).
Proof.
  induction lines as [|line lines IH]; intros H; [reflexivity|].
  simpl in H. apply andb_true_iff in H. destruct H as [Hl H].
  rewrite reader_rows_cons. unfold line_closes in Hl.
  cbn [map]. unfold row_of_line at 1.
  destruct (process_line parse_reset line) as [self|]; [|discriminate].
  cbn [bind]. rewrite Hl, (IH H). reflexivity.
Qed.

Lemma read_csv_closed (text : string) :
  forallb line_closes (StringIO_lines text) = true ->
  read_csv text =
  Ok (map (fun line => Dict.of_pairs (combine column_names (row_of_line line)))
          (StringIO_lines text)).
Proof.
  intros H. unfold read_csv, reader. rewrite (reader_rows_closed _ H).
  cbn [bind]. now rewrite map_map.
Qed.

Lemma forallb_impl {A : Type} (p q : A -> bool) (l : list A) :
  (forall x, p x = true -> q x = true) ->
  forallb p l = true -> forallb q l = true.
Proof.
  intros Hpq. induction l as [|x l IH]; simpl; [reflexivity|].
  intros H. apply andb_true_iff in H. destruct H as [Hx H].
  now rewrite (Hpq x Hx), IH.
Qed.

(** C6, as amended.  Take a text in which every line, read from the
    start of a record, is accepted by the reader and leaves no quoted
    field open.  Then the text is read line by line, and every line in
    which no field starts with a double quote, carriage returns stand at
    the end only and the fields are within the field size limit is split
    at every comma, its line end removed, and its fields are paired with
    the column names by position.  The name at position [i] is bound to
    the field at position [i] when the line has one, and is absent
    otherwise; fields beyond the fifth have no name and are dropped; a
    blank line has no field.  A text all of whose lines are such is read
    so throughout. *)
Theorem lines_are_split_at_commas :
  (forall text,
      forallb line_closes (StringIO_lines text) = true ->
      exists rs,
        read_csv text = Ok rs /\
        Forall2 (fun line r => tidy_line line = true -> r = record_of_row line)
                (StringIO_lines text) rs) /\
  (forall text,
      forallb tidy_line (StringIO_lines text) = true ->
      read_csv text = Ok (map record_of_row (StringIO_lines text))) /\
  (forall line i name,
      nth_error column_names i = Some name ->
      Dict.get name (record_of_row line) = nth_error (fields_of_row line) i) /\
  (forall line,
      Dict.keys (record_of_row line) =
      firstn (List.length (fields_of_row line)) column_names).
Proof.
  split; [|split; [|split]].
  - intros text H. eexists. split; [exact (read_csv_closed text H)|].
    induction (StringIO_lines text) as [|line lines IH]; cbn [map]; constructor.
    + intros Ht. unfold record_of_row.
      now rewrite (proj2 (tidy_line_closes line Ht)).
    + apply IH. simpl in H. now apply andb_true_iff in H.
  - intros text H.
    rewrite read_csv_closed
      by (apply (forallb_impl tidy_line); [apply tidy_line_closes | exact H]).
    f_equal. apply map_ext_in. intros line Hin. unfold record_of_row.
    rewrite forallb_forall in H.
    now rewrite (proj2 (tidy_line_closes line (H line Hin))).
  - intros line i name H. unfold record_of_row. rewrite of_pairs_columns.
    destruct (fields_of_row line) as [|f1 [|f2 [|f3 [|f4 [|f5 row]]]]];
      do 5 (destruct i as [|i]; [injection H as <-; reflexivity|]);
      destruct i; discriminate H.
  - intros line. unfold record_of_row. rewrite of_pairs_columns.
    destruct (fields_of_row line) as [|f1 [|f2 [|f3 [|f4 [|f5 row]]]]];
      try reflexivity.
    simpl. now rewrite firstn_nil.
Qed.

Lemma lines_are_split_at_commas_witness :
  (exists rs,
      read_csv crlf_log = Ok rs /\
      Forall2 (fun line r => tidy_line line = true -> r = record_of_row line)
              (StringIO_lines crlf_log) rs) /\
  read_csv uneven_rows = Ok (map record_of_row (StringIO_lines uneven_rows)) /\
  Dict.get "browser" (record_of_row "x,y") = nth_error (fields_of_row "x,y") 2.
Proof.
  split; [|split].
  - apply (proj1 lines_are_split_at_commas crlf_log). vm_compute. reflexivity.
  - apply (proj1 (proj2 lines_are_split_at_commas) uneven_rows).
    vm_compute. reflexivity.
  - apply (proj1 (proj2 (proj2 lines_are_split_at_commas)) "x,y" 2 "browser").
    reflexivity.
Defined.

(** C6, as stated, fails: a comma inside double quotes does not split,
    and the quotes are not part of the field; and a carriage return
    inside a row stops the parse. *)
Lemma plain_comma_splitting_fails :
  read_csv quoted_row = Ok [[("path", "a,b"); ("datetime_accessed", "c")]] /\
  List.length (fields_of_line quoted_row) = 3 /\
  read_csv row_with_bare_CR =
    Raise (CsvError "new-line character seen in unquoted field - do you need to open the file in universal-newline mode?") /\
  ~ plain_comma_splitting.
Proof.
  split; [reflexivity|]. split; [reflexivity|]. split; [reflexivity|].
  intros H. specialize (H quoted_row). vm_compute in H. discriminate H.
Qed.

(** C7, as amended.  For a text in which every line, read from the start
    of a record, is accepted by the reader and leaves no quoted field
    open, the parser returns one record per line of the text, blank
    lines included, trailing or not: the count is the number of line
    feeds, plus one for text after the last line feed.  Every text in
    which no field starts with a double quote, carriage returns stand
    at line ends only and the fields are within the field size limit is
    such a text. *)
Theorem closed_lines_one_record_each :
  (forall text,
      forallb line_closes (StringIO_lines text) = true ->
      exists rs, read_csv text = Ok rs /\ List.length rs = line_count text) /\
  (forall text,
      forallb tidy_line (StringIO_lines text) = true ->
      forallb line_closes (StringIO_lines text) = true).
Proof.
  split.
  - intros text H. eexists. split; [exact (read_csv_closed text H)|].
    rewrite length_map. apply length_lines.
  - intros text. apply forallb_impl. apply tidy_line_closes.
Qed.

Lemma closed_lines_one_record_each_witness :
  (exists rs, read_csv crlf_log = Ok rs /\ List.length rs = line_count crlf_log) /\
  forallb line_closes (StringIO_lines row_and_blank_line) = true.
Proof.
  split.
  - apply (proj1 closed_lines_one_record_each crlf_log). vm_compute. reflexivity.
  - apply (proj2 closed_lines_one_record_each row_and_blank_line).
    vm_compute. reflexivity.
Defined.

(** C7, as stated, fails: a quoted field can hold a line feed, and then
    two lines of the text, neither of them empty, give one record. *)
Lemma one_record_per_line_fails :
  read_csv quoted_lines =
    Ok [[("path", String (ord "a") (String LF "b")); ("datetime_accessed", "c")]] /\
  line_count quoted_lines = 2 /\
  ~ one_record_per_line.
Proof.
  split; [reflexivity|]. split; [reflexivity|].
  intros H. specialize (H quoted_lines _ eq_refl). vm_compute in H. discriminate H.
Qed.
